(** * Synchron: the live voice session of [src/App.tsx]

    A shallow embedding of the session engine written inside the [App]
    component: the capture encoder ([scriptProcessor.onaudioprocess]), the
    inbound message handler ([onmessage]), [stopSession], [startSession] and
    the channel callbacks, followed by the properties the specification
    states about them.

    Conventions.
    - JavaScript numbers that carry time (the output clock, buffer
      durations, [nextStartTime]) are rationals [Q]; arithmetic is exact
      where IEEE doubles round.
    - A capture sample is a [Number]: a rational, an infinity or NaN.
    - The React state hooks ([isActive], [transcription], [history]) are
      kept apart from the refs.  A handler mutates refs at once and queues
      state updates; the queue is applied when the component renders, after
      the handler has run.
    - Each callback is one step: it runs to its end, or to the exception
      that escapes it, before the next event is taken; the [await] of line
      112 resumes before any other message is handled.
    - [decode], [encode] and [decodeAudioData] come from
      [./services/geminiService], which is outside this development: they
      are the fields of the class [GeminiService]. *)

From Stdlib Require Import ZArith QArith Qminmax Qabs.
From Stdlib Require Import List String Bool Lia Lqa.
Import ListNotations.

Local Open Scope Z_scope.

(** ** Capture encoder (App.tsx, lines 84-100) *)

Module Encoder.

(** The values of a [Float32Array] element, read as a JavaScript number. *)
Inductive Number : Type :=
| NaN
| Fin (q : Q)
| PInf
| NInf.

Definition sign_of (q : Q) : comparison := (Qnum q ?= 0)%Z.

(** [x * y] on numbers: a NaN operand or [0 * Infinity] gives NaN. *)
Definition mul (x y : Number) : Number :=
  match x, y with
  | NaN, _ | _, NaN => NaN
  | Fin a, Fin b => Fin (a * b)
  | Fin a, PInf | PInf, Fin a =>
      match sign_of a with Gt => PInf | Lt => NInf | Eq => NaN end
  | Fin a, NInf | NInf, Fin a =>
      match sign_of a with Gt => NInf | Lt => PInf | Eq => NaN end
  | PInf, PInf | NInf, NInf => PInf
  | PInf, NInf | NInf, PInf => NInf
  end.

(** [Math.min(x, y)] and [Math.max(x, y)]: NaN if either argument is. *)
Definition min (x y : Number) : Number :=
  match x, y with
  | NaN, _ | _, NaN => NaN
  | NInf, _ | _, NInf => NInf
  | PInf, z | z, PInf => z
  | Fin a, Fin b => Fin (Qmin a b)
  end.

Definition max (x y : Number) : Number :=
  match x, y with
  | NaN, _ | _, NaN => NaN
  | PInf, _ | _, PInf => PInf
  | NInf, z | z, NInf => z
  | Fin a, Fin b => Fin (Qmax a b)
  end.

(** Truncation toward zero, the integer part ToInt16 starts from. *)
Definition truncate (q : Q) : Z := Z.quot (Qnum q) (Zpos (Qden q)).

(** Two's-complement wrap of an integer into 16 bits. *)
Definition wrap16 (i : Z) : Z :=
  let m := i mod 65536 in
  if 32768 <=? m then m - 65536 else m.

(** Storing a number into an [Int16Array] element (ToInt16): NaN and the
    infinities store 0, a finite number is truncated and wrapped. *)
Definition toInt16 (x : Number) : Z :=
  match x with
  | Fin q => wrap16 (truncate q)
  | NaN | PInf | NInf => 0
  end.

Definition headroom : Q := 9 # 10.
Definition fullScale : Q := 32767 # 1.

(** Line 90, before the store:
    [Math.max(-1, Math.min(1, inputData[i] * 0.9)) * 32767]. *)
Definition scaled (x : Number) : Number :=
  mul (max (Fin (-1 # 1)) (min (Fin 1) (mul x (Fin headroom)))) (Fin fullScale).

(** Line 90: the value [int16[i]] holds after the assignment. *)
Definition encodeSample (x : Number) : Z := toInt16 (scaled x).

(** Lines 86-91: the loop over the frame. *)
Definition encodeFrame (inputData : list Number) : list Z :=
  map encodeSample inputData.

(** [new Uint8Array(int16.buffer)]: each sample as two bytes, low byte
    first. *)
Definition int16Bytes (s : Z) : list Z := [s mod 256; (s / 256) mod 256].

Fixpoint frameBytes (samples : list Z) : list Z :=
  match samples with
  | [] => []
  | s :: rest => int16Bytes s ++ frameBytes rest
  end.

(** Reading the two bytes back as a signed 16-bit sample. *)
Definition readInt16 (bs : list Z) : option Z :=
  match bs with
  | [lo; hi] => Some (wrap16 (lo + 256 * hi))
  | _ => None
  end.

End Encoder.

(** ** Data of the session *)

Local Open Scope string_scope.

(** JavaScript truthiness of a string: only the empty string is falsy. *)
Definition truthy (s : string) : bool :=
  match s with EmptyString => false | String _ _ => true end.

(** The literal type ['user' | 'ai'] of a history entry's [role]. *)
Inductive Role : Type := RoleUser | RoleAi.

(** [{ user: string, ai: string }], the shape of both the [transcription]
    state and [transcriptionRef.current]. *)
Record Transcript : Type := { user : string; ai : string }.

(** An element of [history]: [{ text, role }]. *)
Record TurnRecord : Type := { text : string; role : Role }.

Definition emptyTranscript : Transcript := {| user := ""; ai := "" |}.

(** A decoded [AudioBuffer]: its length in sample frames and its rate;
    [audioBuffer.duration] is their quotient, in seconds. *)
Record AudioBuffer : Type := { frameCount : N; sampleRate : positive }.

Definition duration (b : AudioBuffer) : Q := Z.of_N (frameCount b) # sampleRate b.

(** The imports from [./services/geminiService].  A call that throws
    returns [None]. *)
Class GeminiService : Type := {
  encode : list Z -> string;
  decode : string -> option (list Z);
  decodeAudioData : list Z -> positive -> nat -> option AudioBuffer
}.

(** The outbound [Blob] of line 92. *)
Record Blob : Type := { data : string; mimeType : string }.

(** What [onmessage] reads of a [LiveServerMessage]:
    [part.inlineData?.data] of each part of [serverContent?.modelTurn?.parts],
    the [text] of [inputTranscription] and of [outputTranscription], and
    the flags [turnComplete] and [interrupted] (absent reads as false). *)
Record Part : Type := { inlineData : option string }.

Record LiveServerMessage : Type := {
  parts : option (list Part);
  inputTranscription : option string;
  outputTranscription : option string;
  turnComplete : bool;
  interrupted : bool
}.

(** ** State *)

(** The three [useState] hooks (lines 9-11). *)
Record Hooks : Type := {
  isActive : bool;
  transcription : Transcript;
  history : list TurnRecord
}.

(** The [useRef] cells (lines 13-18).  [sources] is the [Set] of source
    nodes in insertion order; [liveSession] names the connection it holds. *)
Record Refs : Type := {
  audioContexts : bool;
  liveSession : option nat;
  nextStartTime : Q;
  sources : list nat;
  transcriptionRef : Transcript
}.

(** A buffer source node that [start] was called on. *)
Record Source : Type := { node : nat; buffer : AudioBuffer; startAt : Q }.

Definition endAt (s : Source) : Q := startAt s + duration (buffer s).

(** The output audio context: how many source nodes were created, which
    were started and when, which were stopped by [stop()], and which have
    fired ['ended']. *)
Record Output : Type := {
  created : nat;
  started : list Source;
  stopped : list nat;
  ended : list nat
}.

(** The remote side and the capture graph.  Every call of
    [ai.live.connect] is numbered; [resolved] lists the calls whose
    [sessionPromise] has resolved, [closed] the sessions [close()] was
    called on, [processors] the script processors connected in [onopen]
    (each named by the connection its handler captured), [waiting] the
    blobs held by [sessionPromise.then] until the promise resolves and
    [sent] the calls of [session.sendRealtimeInput]. *)
Record Channel : Type := {
  connects : nat;
  resolved : list nat;
  closed : list nat;
  processors : list nat;
  waiting : list (nat * Blob);
  sent : list (nat * Blob)
}.

Record App : Type := {
  hooks : Hooks;
  refs : Refs;
  output : Output;
  channel : Channel
}.

(** A queued state update.  An updater function passed to [setHistory]
    closes over the ref cells and reads them when React runs it. *)
Inductive Update : Type :=
| SetIsActive (b : bool)
| SetTranscription (f : Transcript -> Transcript)
| SetHistory (f : Refs -> list TurnRecord -> list TurnRecord).

(** When React runs an updater function: with the queue at render (the
    documented time), or at the [setState] call itself, which React does
    when the component has no update pending. *)
Inductive UpdaterRun : Type := AtRender | AtCall.

(** A handler in progress: the application and the updates queued so far. *)
Record Exec : Type := { app : App; queue : list Update }.

Definition initialApp : App :=
  {| hooks := {| isActive := false; transcription := emptyTranscript; history := [] |};
     refs := {| audioContexts := false; liveSession := None; nextStartTime := 0;
                sources := []; transcriptionRef := emptyTranscript |};
     output := {| created := 0; started := []; stopped := []; ended := [] |};
     channel := {| connects := 0; resolved := []; closed := []; processors := [];
                   waiting := []; sent := [] |} |}.

(** *** Field updates *)

Definition withRefs (f : Refs -> Refs) (a : App) : App :=
  {| hooks := hooks a; refs := f (refs a); output := output a; channel := channel a |}.

Definition withOutput (f : Output -> Output) (a : App) : App :=
  {| hooks := hooks a; refs := refs a; output := f (output a); channel := channel a |}.

Definition withChannel (f : Channel -> Channel) (a : App) : App :=
  {| hooks := hooks a; refs := refs a; output := output a; channel := f (channel a) |}.

Definition set_audioContexts (v : bool) (r : Refs) : Refs :=
  {| audioContexts := v; liveSession := liveSession r;
     nextStartTime := nextStartTime r; sources := sources r;
     transcriptionRef := transcriptionRef r |}.

Definition set_liveSession (v : option nat) (r : Refs) : Refs :=
  {| audioContexts := audioContexts r; liveSession := v;
     nextStartTime := nextStartTime r; sources := sources r;
     transcriptionRef := transcriptionRef r |}.

Definition set_nextStartTime (v : Q) (r : Refs) : Refs :=
  {| audioContexts := audioContexts r; liveSession := liveSession r;
     nextStartTime := v; sources := sources r;
     transcriptionRef := transcriptionRef r |}.

Definition set_sources (v : list nat) (r : Refs) : Refs :=
  {| audioContexts := audioContexts r; liveSession := liveSession r;
     nextStartTime := nextStartTime r; sources := v;
     transcriptionRef := transcriptionRef r |}.

Definition set_transcriptionRef (v : Transcript) (r : Refs) : Refs :=
  {| audioContexts := audioContexts r; liveSession := liveSession r;
     nextStartTime := nextStartTime r; sources := sources r;
     transcriptionRef := v |}.

(** ** Handlers: state, queue and exceptions *)

Inductive Exn : Type :=
| TypeError       (* a call or a property read on something that has none *)
| ServiceError    (* thrown inside [./services/geminiService] *)
| Rejected.       (* a rejected promise of the platform or of the SDK *)

Inductive Completion (A : Type) : Type :=
| Normal (a : A)
| Throw (e : Exn).
Arguments Normal {A} a.
Arguments Throw {A} e.

(** A handler body: it runs on the application and the queue, and ends
    normally or by throwing; what it changed before throwing stays. *)
Definition M (A : Type) : Type := Exec -> Completion A * Exec.

Definition ret {A : Type} (a : A) : M A := fun s => (Normal a, s).

Definition bind {A B : Type} (m : M A) (k : A -> M B) : M B :=
  fun s =>
    match m s with
    | (Normal a, s') => k a s'
    | (Throw e, s') => (Throw e, s')
    end.

Definition throw {A : Type} (e : Exn) : M A := fun s => (Throw e, s).

(** [try { m } catch (e) { h }] *)
Definition tryCatch (m : M unit) (h : M unit) : M unit :=
  fun s =>
    match m s with
    | (Normal a, s') => (Normal a, s')
    | (Throw _, s') => h s'
    end.

Declare Scope handler_scope.
Delimit Scope handler_scope with handler.
Notation "x <- m ;; k" := (bind m (fun x => k))
  (at level 61, m at next level, right associativity) : handler_scope.
Notation "m ;; k" := (bind m (fun _ => k))
  (at level 61, right associativity) : handler_scope.
Local Open Scope handler_scope.

Definition getHooks : M Hooks := fun s => (Normal (hooks (app s)), s).
Definition getRefs : M Refs := fun s => (Normal (refs (app s)), s).
Definition getOutput : M Output := fun s => (Normal (output (app s)), s).
Definition getChannel : M Channel := fun s => (Normal (channel (app s)), s).

Definition modify (f : App -> App) : M unit :=
  fun s => (Normal tt, {| app := f (app s); queue := queue s |}).

(** A [setState] call: the update joins the queue. *)
Definition dispatch (u : Update) : M unit :=
  fun s => (Normal tt, {| app := app s; queue := queue s ++ [u] |}).

(** [setState(updater)]: queued as it is, or evaluated on the spot against
    the rendered state and the refs of this moment. *)
Definition setHistory (when : UpdaterRun)
    (updater : Refs -> list TurnRecord -> list TurnRecord) : M unit :=
  match when with
  | AtRender => dispatch (SetHistory updater)
  | AtCall =>
      h <- getHooks ;;
      r <- getRefs ;;
      let eager := updater r (history h) in
      dispatch (SetHistory (fun _ _ => eager))
  end.

(** Rendering: the queued updates are applied in order; an updater reads
    the refs as they are now. *)
Definition applyUpdate (r : Refs) (h : Hooks) (u : Update) : Hooks :=
  match u with
  | SetIsActive b =>
      {| isActive := b; transcription := transcription h; history := history h |}
  | SetTranscription f =>
      {| isActive := isActive h; transcription := f (transcription h);
         history := history h |}
  | SetHistory f =>
      {| isActive := isActive h; transcription := transcription h;
         history := f r (history h) |}
  end.

Definition render (s : Exec) : App :=
  {| hooks := fold_left (applyUpdate (refs (app s))) (queue s) (hooks (app s));
     refs := refs (app s); output := output (app s); channel := channel (app s) |}.

(** ** The output context *)

(** [outCtx.createBufferSource()]: a fresh node. *)
Definition createBufferSource : M nat :=
  o <- getOutput ;;
  modify (withOutput (fun o =>
    {| created := S (created o); started := started o;
       stopped := stopped o; ended := ended o |})) ;;
  ret (created o).

(** [source.start(when)] with [source.buffer = b]. *)
Definition start (id : nat) (b : AudioBuffer) (when : Q) : M unit :=
  modify (withOutput (fun o =>
    {| created := created o;
       started := started o ++ [{| node := id; buffer := b; startAt := when |}];
       stopped := stopped o; ended := ended o |})).

(** [s.stop()] *)
Definition stop (id : nat) : M unit :=
  modify (withOutput (fun o =>
    {| created := created o; started := started o;
       stopped := stopped o ++ [id]; ended := ended o |})).

Definition memb (n : nat) (l : list nat) : bool := existsb (Nat.eqb n) l.

(** The nodes that are scheduled or playing: started, not stopped, and
    ['ended'] not fired. *)
Definition playing (o : Output) : list nat :=
  filter (fun id => negb (memb id (stopped o)) && negb (memb id (ended o)))
         (map node (started o)).

(** ** Playback cancellation (lines 33-37 and lines 151-153) *)

(** [sources.current.forEach(s => { try { s.stop(); } catch (e) {} })] *)
Fixpoint stopEach (ids : list nat) : M unit :=
  match ids with
  | [] => ret tt
  | s :: rest => tryCatch (stop s) (ret tt) ;; stopEach rest
  end.

(** The three statements that [stopSession] and the [interrupted] branch
    share: stop each source, clear the set, zero [nextStartTime]. *)
Definition flushPlayback : M unit :=
  r <- getRefs ;;
  stopEach (sources r) ;;
  modify (withRefs (set_sources [])) ;;
  modify (withRefs (set_nextStartTime 0)).

(** ** stopSession (lines 26-40) *)

Definition closeSession (n : nat) : M unit :=
  modify (withChannel (fun c =>
    {| connects := connects c; resolved := resolved c; closed := closed c ++ [n];
       processors := processors c; waiting := waiting c; sent := sent c |})).

Definition stopSession : M unit :=
  dispatch (SetIsActive false) ;;
  r <- getRefs ;;
  match liveSession r with
  | Some n => closeSession n ;; modify (withRefs (set_liveSession None))
  | None => ret tt
  end ;;
  flushPlayback ;;
  dispatch (SetTranscription (fun _ => emptyTranscript)) ;;
  modify (withRefs (set_transcriptionRef emptyTranscript)).

Section Session.

Context {service : GeminiService}.

(** ** The capture callback (lines 84-100) *)

Definition pcmBlob (inputData : list Encoder.Number) : Blob :=
  {| data := encode (Encoder.frameBytes (Encoder.encodeFrame inputData));
     mimeType := "audio/pcm;rate=16000" |}.

(** [sessionPromise.then(session => session.sendRealtimeInput(...))] for
    the promise of connection [n]: the call is made now if the promise has
    resolved, and is held until it does otherwise. *)
Definition sendWhenResolved (n : nat) (b : Blob) : M unit :=
  c <- getChannel ;;
  if memb n (resolved c) then
    modify (withChannel (fun c =>
      {| connects := connects c; resolved := resolved c; closed := closed c;
         processors := processors c; waiting := waiting c;
         sent := sent c ++ [(n, b)] |}))
  else
    modify (withChannel (fun c =>
      {| connects := connects c; resolved := resolved c; closed := closed c;
         processors := processors c; waiting := waiting c ++ [(n, b)];
         sent := sent c |})).

Definition onaudioprocess (n : nat) (inputData : list Encoder.Number) : M unit :=
  sendWhenResolved n (pcmBlob inputData).

(** ** onmessage (lines 105-155) *)

(** Line 112: [await decodeAudioData(decode(data), outCtx, 24000, 1)];
    [decoded] is the buffer the two calls produce when neither throws. *)
Definition decoded (data : string) : option AudioBuffer :=
  match decode data with
  | None => None
  | Some bytes => decodeAudioData bytes 24000%positive 1%nat
  end.

Definition decodeChunk (data : string) : M AudioBuffer :=
  match decoded data with
  | None => throw ServiceError
  | Some b => ret b
  end.

(** Lines 110-119, the body of the loop for a part that carries audio.
    Line 119 is [sources.add(source)]: [sources] is the ref object, whose
    one property is [current], so [sources.add] is undefined and the call
    throws a TypeError. *)
Definition schedulePart (now : Q) (data : string) : M unit :=
  r <- getRefs ;;
  if audioContexts r then
    modify (withRefs (fun r => set_nextStartTime (Qmax (nextStartTime r) now) r)) ;;
    audioBuffer <- decodeChunk data ;;
    source <- createBufferSource ;;
    r <- getRefs ;;
    start source audioBuffer (nextStartTime r) ;;
    modify (withRefs (fun r =>
      set_nextStartTime (nextStartTime r + duration audioBuffer) r)) ;;
    throw TypeError
  else throw TypeError.

(** [part.inlineData?.data], tested for truthiness. *)
Definition audioOf (p : Part) : option string :=
  match inlineData p with
  | Some d => if truthy d then Some d else None
  | None => None
  end.

(** Lines 108-121: [for (const part of parts)]. *)
Fixpoint forParts (now : Q) (ps : list Part) : M unit :=
  match ps with
  | [] => ret tt
  | p :: rest =>
      match audioOf p with
      | Some d => schedulePart now d
      | None => ret tt
      end ;;
      forParts now rest
  end.

(** The first part of a message that carries audio, if any. *)
Fixpoint firstAudioOf (ps : list Part) : option string :=
  match ps with
  | [] => None
  | p :: rest =>
      match audioOf p with
      | Some d => Some d
      | None => firstAudioOf rest
      end
  end.

Definition firstAudio (message : LiveServerMessage) : option string :=
  match parts message with
  | Some ps => firstAudioOf ps
  | None => None
  end.

(** [array.slice(-2)]: the last two elements. *)
Definition sliceLast2 {A : Type} (l : list A) : list A :=
  skipn (List.length l - 2) l.

(** Lines 136-145: the function passed to [setHistory]; it reads
    [transcriptionRef.current] when it runs. *)
Definition historyUpdater (r : Refs) (prev : list TurnRecord) : list TurnRecord :=
  let t := transcriptionRef r in
  let newEntries :=
    ((if truthy (user t) then [{| text := user t; role := RoleUser |}] else []) ++
     (if truthy (ai t) then [{| text := ai t; role := RoleAi |}] else []))%list in
  sliceLast2 (prev ++ newEntries)%list.

Definition onmessage (now : Q) (when : UpdaterRun) (message : LiveServerMessage)
    : M unit :=
  (* lines 106-122 *)
  match parts message with
  | Some ps => forParts now ps
  | None => ret tt
  end ;;
  (* lines 124-128 *)
  match inputTranscription message with
  | Some text =>
      modify (withRefs (fun r =>
        set_transcriptionRef
          {| user := user (transcriptionRef r) ++ text;
             ai := ai (transcriptionRef r) |} r)) ;;
      dispatch (SetTranscription (fun prev =>
        {| user := user prev ++ text; ai := ai prev |}))
  | None => ret tt
  end ;;
  (* lines 129-133 *)
  match outputTranscription message with
  | Some text =>
      modify (withRefs (fun r =>
        set_transcriptionRef
          {| user := user (transcriptionRef r);
             ai := ai (transcriptionRef r) ++ text |} r)) ;;
      r <- getRefs ;;
      let shown := {| user := ""; ai := ai (transcriptionRef r) |} in
      dispatch (SetTranscription (fun _ => shown))
  | None => ret tt
  end ;;
  (* lines 135-148 *)
  (if turnComplete message then
     setHistory when historyUpdater ;;
     dispatch (SetTranscription (fun _ => emptyTranscript)) ;;
     modify (withRefs (set_transcriptionRef emptyTranscript))
   else ret tt) ;;
  (* lines 150-154 *)
  (if interrupted message then flushPlayback else ret tt).

(** ** startSession and the channel callbacks *)

(** Line 76: [ai.live.connect(...)], the next numbered connection. *)
Definition connect : M unit :=
  modify (withChannel (fun c =>
    {| connects := S (connects c); resolved := resolved c; closed := closed c;
       processors := processors c; waiting := waiting c; sent := sent c |})).

(** Lines 42-181, up to the call of [connect].  [micGranted] is the
    outcome of [getUserMedia]. *)
Definition startSession (micGranted : bool) : M unit :=
  h <- getHooks ;;
  if isActive h then stopSession
  else
    tryCatch
      (modify (withRefs (set_audioContexts true)) ;;
       (if micGranted then ret tt else throw Rejected) ;;
       connect)
      (dispatch (SetIsActive false)).

(** Lines 79-104: [onopen] of connection [n]. *)
Definition onopen (n : nat) : M unit :=
  dispatch (SetIsActive true) ;;
  modify (withChannel (fun c =>
    {| connects := connects c; resolved := resolved c; closed := closed c;
       processors := processors c ++ [n]; waiting := waiting c; sent := sent c |})).

(** [sessionPromise] of connection [n] resolves: the calls it held are
    made, and line 175 stores the session. *)
Definition onresolved (n : nat) : M unit :=
  modify (withChannel (fun c =>
    {| connects := connects c; resolved := resolved c ++ [n]; closed := closed c;
       processors := processors c;
       waiting := filter (fun w => negb (fst w =? n)%nat) (waiting c);
       sent := sent c ++ filter (fun w => (fst w =? n)%nat) (waiting c) |})) ;;
  modify (withRefs (set_liveSession (Some n))).

(** [sessionPromise] of connection [n] rejects: the calls it held are
    never made, and the [catch] of lines 177-180 runs. *)
Definition onrejected (n : nat) : M unit :=
  modify (withChannel (fun c =>
    {| connects := connects c; resolved := resolved c; closed := closed c;
       processors := processors c;
       waiting := filter (fun w => negb (fst w =? n)%nat) (waiting c);
       sent := sent c |})) ;;
  dispatch (SetIsActive false).

(** Lines 156-159. *)
Definition onerror : M unit := stopSession.

(** Lines 160-162. *)
Definition onclose : M unit := dispatch (SetIsActive false).

(** Line 116: the ['ended'] listener of source [id]. *)
Definition onended (id : nat) : M unit :=
  modify (withOutput (fun o =>
    {| created := created o; started := started o; stopped := stopped o;
       ended := ended o ++ [id] |})) ;;
  modify (withRefs (fun r => set_sources (remove Nat.eq_dec id (sources r)) r)).

(** ** Events *)

(** What reaches the component from outside, one task at a time. *)
Inductive Event : Type :=
| Click (micGranted : bool)
| Opened (n : nat)
| Resolved (n : nat)
| ConnectFailed (n : nat)
| Message (now : Q) (when : UpdaterRun) (message : LiveServerMessage)
| ChannelError
| ChannelClosed
| AudioProcess (n : nat) (inputData : list Encoder.Number)
| Ended (id : nat).

Definition guarded (b : bool) (m : M unit) : M unit := if b then m else ret tt.

Definition handler (e : Event) : M unit :=
  match e with
  | Click micGranted => startSession micGranted
  | Opened n =>
      c <- getChannel ;; guarded (n <? connects c)%nat (onopen n)
  | Resolved n =>
      c <- getChannel ;;
      guarded ((n <? connects c)%nat && negb (memb n (resolved c))) (onresolved n)
  | ConnectFailed n =>
      c <- getChannel ;;
      guarded ((n <? connects c)%nat && negb (memb n (resolved c))) (onrejected n)
  | Message now when message => onmessage now when message
  | ChannelError => onerror
  | ChannelClosed => onclose
  | AudioProcess n inputData =>
      c <- getChannel ;; guarded (memb n (processors c)) (onaudioprocess n inputData)
  | Ended id =>
      o <- getOutput ;; guarded (id <? created o)%nat (onended id)
  end.

(** One task: the handler runs on an empty queue, to its end or to the
    exception that escapes it, and the component renders. *)
Definition step (a : App) (e : Event) : App :=
  render (snd (handler e {| app := a; queue := [] |})).

Definition run (es : list Event) (a : App) : App := fold_left step es a.

(** The events of one uninterrupted segment of a session: anything but a
    message flagged [interrupted], a press of the button and a channel
    error. *)
Definition uninterrupted (e : Event) : bool :=
  match e with
  | Message _ _ message => negb (interrupted message)
  | Click _ | ChannelError => false
  | _ => true
  end.

(** How the handler of an event ended. *)
Definition completion (a : App) (e : Event) : Completion unit :=
  fst (handler e {| app := a; queue := [] |}).

End Session.

(** ** A service to run the scenarios with *)

(** Two chunks are known to this stand-in for [geminiService]: one decodes
    to half a second of audio, one to three tenths; any other payload makes
    [decode] throw.  [encode] writes each byte as one character. *)
Definition scenarioService : GeminiService :=
  {| encode := fun bytes =>
       string_of_list_ascii (map (fun z => Ascii.ascii_of_N (Z.to_N z)) bytes);
     decode := fun s =>
       if (s =? "chunk-500ms")%string then Some [5]
       else if (s =? "chunk-300ms")%string then Some [3]
       else None;
     decodeAudioData := fun bytes rate _ =>
       match bytes with
       | [5] => Some {| frameCount := 12000; sampleRate := rate |}
       | [3] => Some {| frameCount := 7200; sampleRate := rate |}
       | _ => None
       end |}.

(** The two buffers [scenarioService] decodes to, at 24000 frames a
    second. *)
Definition halfSecond : AudioBuffer := {| frameCount := 12000; sampleRate := 24000 |}.
Definition threeTenths : AudioBuffer := {| frameCount := 7200; sampleRate := 24000 |}.

(** The inbound events of the specification, as messages. *)
Definition audioEvent (data : string) : LiveServerMessage :=
  {| parts := Some [{| inlineData := Some data |}];
     inputTranscription := None; outputTranscription := None;
     turnComplete := false; interrupted := false |}.

Definition userDelta (t : string) : LiveServerMessage :=
  {| parts := None; inputTranscription := Some t; outputTranscription := None;
     turnComplete := false; interrupted := false |}.

Definition assistantDelta (t : string) : LiveServerMessage :=
  {| parts := None; inputTranscription := None; outputTranscription := Some t;
     turnComplete := false; interrupted := false |}.

Definition turnCompleteEvent : LiveServerMessage :=
  {| parts := None; inputTranscription := None; outputTranscription := None;
     turnComplete := true; interrupted := false |}.

Definition interruptedEvent : LiveServerMessage :=
  {| parts := None; inputTranscription := None; outputTranscription := None;
     turnComplete := false; interrupted := true |}.

(** An active session: the button was pressed, the channel opened and the
    session promise resolved. *)
Definition activeApp : App :=
  run (service := scenarioService) [Click true; Opened 0%nat; Resolved 0%nat] initialApp.

(** The channel has opened and the session promise has not resolved yet. *)
Definition openedApp : App :=
  run (service := scenarioService) [Click true; Opened 0%nat] initialApp.

(** A message that carries a chunk, an assistant delta and both flags. *)
Definition loadedMessage : LiveServerMessage :=
  {| parts := Some [{| inlineData := Some "chunk-300ms" |}];
     inputTranscription := None; outputTranscription := Some "lost";
     turnComplete := true; interrupted := true |}.

(** One message whose parts are two chunks, half a second then three
    tenths. *)
Definition twoChunkMessage : LiveServerMessage :=
  {| parts := Some [{| inlineData := Some "chunk-500ms" |};
                    {| inlineData := Some "chunk-300ms" |}];
     inputTranscription := None; outputTranscription := None;
     turnComplete := false; interrupted := false |}.

(** A user delta whose parts carry no audio: one part without
    [inlineData], one with an empty [data]. *)
Definition textOnlyMessage : LiveServerMessage :=
  {| parts := Some [{| inlineData := None |}; {| inlineData := Some "" |}];
     inputTranscription := Some "Hi"; outputTranscription := None;
     turnComplete := false; interrupted := false |}.

(** ** The view (lines 216-238) *)

(** Lines 233-237: the live line is rendered when either text is
    non-empty, and shows [transcription.ai || transcription.user]. *)
Definition liveLine (t : Transcript) : option string :=
  if truthy (user t) || truthy (ai t)
  then Some (if truthy (ai t) then ai t else user t)
  else None.

(** ** Quantities the statements use *)

(** The clamp of line 90: [Math.max(-1, Math.min(1, q))]. *)
Definition clamp (q : Q) : Q := Qmax (-1 # 1) (Qmin 1 q).

Section Statements.

Context {service : GeminiService}.

(** The text an event appends to the accumulator of a role: the delta of
    a message whose handler gets past the loop over the parts. *)
Definition heard (r : Role) (e : Event) : string :=
  match e with
  | Message _ _ m =>
      match firstAudio m with
      | Some _ => ""
      | None =>
          match r with
          | RoleUser => match inputTranscription m with Some t => t | None => "" end
          | RoleAi => match outputTranscription m with Some t => t | None => "" end
          end
      end
  | _ => ""
  end.

(** The events that never clear the transcript: no completed turn, no
    stop. *)
Definition keepsTranscript (e : Event) : bool :=
  match e with
  | Message _ _ m =>
      match firstAudio m with
      | Some _ => true
      | None => negb (turnComplete m)
      end
  | Click _ | ChannelError => false
  | _ => true
  end.

(** A message that carries a decodable chunk and arrives no later than
    the instant [t]. *)
Definition chunkBefore (t : Q) (e : Event) : Prop :=
  match e with
  | Message now _ m =>
      exists d b, firstAudio m = Some d /\ decoded d = Some b /\ (now <= t)%Q
  | _ => False
  end.

(** The duration of the chunk a message carries. *)
Definition chunkDuration (e : Event) : Q :=
  match e with
  | Message _ _ m =>
      match firstAudio m with
      | Some d => match decoded d with Some b => duration b | None => 0 end
      | None => 0
      end
  | _ => 0
  end.

End Statements.

Definition totalOf (l : list Q) : Q := fold_right Qplus 0%Q l.

(** Strings put end to end. *)
Definition joined (l : list string) : string := fold_right append "" l.

(** Sources that follow one another from the instant [t]: each starts
    when the one before it ends. *)
Fixpoint tiled (t : Q) (l : list Source) : Prop :=
  match l with
  | [] => True
  | s :: rest => (startAt s == t)%Q /\ tiled (endAt s) rest
  end.

(** The display follows the accumulators: the assistant text on display
    is the assistant accumulator, and the user text on display is the end
    of the user accumulator. *)
Definition displayFollows (a : App) : Prop :=
  ai (transcription (hooks a)) = ai (transcriptionRef (refs a)) /\
  exists before, user (transcriptionRef (refs a)) =
                 before ++ user (transcription (hooks a)).

(** * Properties *)

(** ** The capture encoder *)

Section EncoderFacts.

Import Encoder.
Local Open Scope Z_scope.

Lemma truncate_between (q : Q) (n : Z) :
  (inject_Z (- n) <= q)%Q -> (q <= inject_Z n)%Q -> - n <= truncate q <= n.
Proof.
  destruct q as [a d]. unfold truncate, Qle, inject_Z. cbn [Qnum Qden].
  rewrite !Z.mul_1_r. intros Hlo Hhi.
  assert (Hd : 0 < Z.pos d) by lia.
  split.
  - rewrite <- (Z.quot_mul (- n) (Z.pos d)) by lia.
    apply Z.quot_le_mono; lia.
  - rewrite <- (Z.quot_mul n (Z.pos d)) by lia.
    apply Z.quot_le_mono; lia.
Qed.

Lemma wrap16_small (i : Z) : -32768 <= i <= 32767 -> wrap16 i = i.
Proof.
  intros Hi. unfold wrap16.
  destruct (Z_lt_le_dec i 0) as [Hneg | Hpos].
  - replace (i mod 65536) with (i + 65536).
    + destruct (Z.leb_spec 32768 (i + 65536)); lia.
    + rewrite <- (Z_mod_plus_full i 1 65536).
      rewrite Z.mod_small by lia. lia.
  - rewrite Z.mod_small by lia.
    destruct (Z.leb_spec 32768 i); lia.
Qed.

(** The clamped value lies in [-1, 1], whatever was clamped. *)
Lemma clamp_between (q : Q) :
  (inject_Z (- 1) <= Qmax (-1 # 1) (Qmin 1 q))%Q /\
  (Qmax (-1 # 1) (Qmin 1 q) <= inject_Z 1)%Q.
Proof.
  split.
  - apply Q.le_max_l.
  - apply Q.max_lub.
    + discriminate.
    + apply Q.le_min_l.
Qed.

(** The product of line 90 is NaN or a rational within the full scale. *)
Lemma scaled_cases (x : Number) :
  scaled x = NaN \/
  exists q, scaled x = Fin q /\
            (inject_Z (- 32767) <= q)%Q /\ (q <= inject_Z 32767)%Q.
Proof.
  assert (Hfin : forall q, exists r, scaled (Fin q) = Fin r /\
            (inject_Z (- 32767) <= r)%Q /\ (r <= inject_Z 32767)%Q).
  { intros q. eexists. split; [reflexivity|].
    destruct (clamp_between (q * headroom)) as [Hlo Hhi].
    unfold fullScale. unfold inject_Z in *. split; nra. }
  destruct x as [| q | |].
  - left. reflexivity.
  - right. apply Hfin.
  - right. exists (1 * fullScale)%Q. split; [reflexivity|]. split; discriminate.
  - right. exists ((-1 # 1) * fullScale)%Q. split; [reflexivity|]. split; discriminate.
Qed.

Lemma encodeSample_truncates (x : Number) :
  encodeSample x = match scaled x with Fin q => truncate q | _ => 0 end /\
  -32767 <= encodeSample x <= 32767.
Proof.
  unfold encodeSample.
  destruct (scaled_cases x) as [H | (q & H & Hlo & Hhi)]; rewrite H; cbn [toInt16].
  - split; [reflexivity | lia].
  - pose proof (truncate_between q 32767 Hlo Hhi) as Ht.
    rewrite wrap16_small by lia. split; [reflexivity | lia].
Qed.

Lemma readInt16_int16Bytes (s : Z) :
  -32768 <= s <= 32767 -> readInt16 (int16Bytes s) = Some s.
Proof.
  intros Hs. unfold readInt16, int16Bytes. f_equal.
  assert (Hlow : s mod 256 + 256 * ((s / 256) mod 256) = s mod 65536).
  { change 65536 with (256 * 256).
    rewrite Z.rem_mul_r by lia. reflexivity. }
  rewrite Hlow. unfold wrap16. rewrite Z.mod_mod by lia.
  apply wrap16_small. exact Hs.
Qed.

(** C2. For every capture frame, the n-th stored sample is the encoding
    of the n-th input sample, and the encoding of a sample is the sample
    multiplied by the headroom 0.9, clamped to [-1, 1], scaled by 32767 and
    truncated toward zero into an [Int16Array] element (an infinite sample
    clamps to +1 or -1, NaN stores 0).  Whatever the samples (full scale,
    beyond it, infinite or NaN), each stored sample is a 16-bit signed
    integer, the store never wraps, and the two bytes sent for it read
    back as the same sample; a sample at +1 or -1 is stored as 29490 or
    -29490, less than one unit away from 32767 * 0.9. *)
Theorem capture_samples_fit_pcm16 :
  (forall inputData : list Number,
     Forall2 (fun x s => s = encodeSample x) inputData (encodeFrame inputData)) /\
  (forall q : Q,
     encodeSample (Fin q) =
       truncate (Qmax (-1 # 1) (Qmin 1 (q * (9 # 10))) * (32767 # 1))) /\
  encodeSample PInf = truncate (1 * (32767 # 1)) /\
  encodeSample NInf = truncate ((-1 # 1) * (32767 # 1)) /\
  encodeSample NaN = 0 /\
  (forall (inputData : list Number) (s : Z),
     In s (encodeFrame inputData) -> -32768 <= s <= 32767) /\
  encodeFrame [Fin 1; Fin (-1 # 1); Fin 0; Fin (1 # 2); Fin 2; NaN] =
    [29490; -29490; 0; 14745; 32767; 0] /\
  (forall q : Q,
     scaled (Fin q) = Fin (Qmax (-1 # 1) (Qmin 1 (q * headroom)) * fullScale)) /\
  (forall inputData : list Number,
     List.length (encodeFrame inputData) = List.length inputData /\
     Forall (fun s => -32768 <= s <= 32767) (encodeFrame inputData)) /\
  (forall x : Number,
     encodeSample x = match scaled x with Fin q => truncate q | _ => 0 end /\
     readInt16 (int16Bytes (encodeSample x)) = Some (encodeSample x)) /\
  encodeSample (Fin 1) = 29490 /\
  encodeSample (Fin (-1 # 1)) = -29490 /\
  (Qabs (inject_Z (encodeSample (Fin 1)) - fullScale * headroom) < 1)%Q /\
  (Qabs (inject_Z (encodeSample (Fin (-1 # 1))) - - (fullScale * headroom)) < 1)%Q.
Proof.
  assert (Hrange : forall x, -32768 <= encodeSample x <= 32767).
  { intros x. pose proof (encodeSample_truncates x). lia. }
  split.
  { intros inputData. unfold encodeFrame.
    induction inputData as [| x rest IH]; cbn [map]; constructor;
      [reflexivity | exact IH]. }
  split.
  { intros q. destruct (encodeSample_truncates (Fin q)) as [Ht _]. exact Ht. }
  split; [vm_compute; reflexivity|].
  split; [vm_compute; reflexivity|].
  split; [reflexivity|].
  split.
  { intros inputData s Hin. unfold encodeFrame in Hin.
    apply in_map_iff in Hin. destruct Hin as (x & <- & _). apply Hrange. }
  split; [vm_compute; reflexivity|].
  split; [reflexivity|].
  split.
  { intros inputData. split.
    - apply length_map.
    - unfold encodeFrame. apply Forall_map, Forall_forall. intros x _.
      apply Hrange. }
  split.
  { intros x. destruct (encodeSample_truncates x) as [Ht Hr].
    split; [exact Ht|]. apply readInt16_int16Bytes. lia. }
  repeat split; vm_compute; reflexivity.
Qed.

End EncoderFacts.

(** ** The session *)

Section SessionFacts.

Context {service : GeminiService}.

Local Open Scope Q_scope.

(** Unfolds the plumbing of handlers and computes. *)
Ltac plumbing :=
  unfold bind, ret, throw, tryCatch, modify, dispatch, guarded,
    getRefs, getHooks, getOutput, getChannel,
    withRefs, withOutput, withChannel;
  cbn -[Nat.ltb].

(** *** What each piece of a handler does to the state *)

Lemma stopEach_spec (ids : list nat) (s : Exec) :
  stopEach ids s =
  (Normal tt,
   {| app := withOutput (fun o =>
        {| created := created o; started := started o;
           stopped := (stopped o ++ ids)%list; ended := ended o |}) (app s);
      queue := queue s |}).
Proof.
  revert s. induction ids as [| i rest IH]; intros s.
  - destruct s as [[h r [c st sp en] ch] q]. plumbing.
    rewrite app_nil_r. reflexivity.
  - cbn [stopEach]. unfold stop. plumbing.
    rewrite IH. plumbing. rewrite <- app_assoc. reflexivity.
Qed.

Lemma flushPlayback_spec (s : Exec) :
  flushPlayback s =
  (Normal tt,
   {| app :=
        {| hooks := hooks (app s);
           refs := set_nextStartTime 0 (set_sources [] (refs (app s)));
           output :=
             {| created := created (output (app s));
                started := started (output (app s));
                stopped := (stopped (output (app s)) ++ sources (refs (app s)))%list;
                ended := ended (output (app s)) |};
           channel := channel (app s) |};
      queue := queue s |}).
Proof.
  unfold flushPlayback. plumbing. rewrite stopEach_spec. reflexivity.
Qed.

(** The body of the loop never ends normally: with no output context it
    throws at once, on a chunk that does not decode it throws after line
    111, and otherwise it throws at line 119, after the source was started
    and [nextStartTime] advanced. *)
Lemma schedulePart_spec (now : Q) (data : string) (s : Exec) :
  schedulePart now data s =
  if audioContexts (refs (app s)) then
    let startTime := Qmax (nextStartTime (refs (app s))) now in
    match decoded data with
    | None =>
        (Throw ServiceError,
         {| app := withRefs (set_nextStartTime startTime) (app s);
            queue := queue s |})
    | Some b =>
        (Throw TypeError,
         {| app :=
              {| hooks := hooks (app s);
                 refs := set_nextStartTime (startTime + duration b) (refs (app s));
                 output :=
                   {| created := S (created (output (app s)));
                      started := (started (output (app s)) ++
                        [{| node := created (output (app s)); buffer := b;
                            startAt := startTime |}])%list;
                      stopped := stopped (output (app s));
                      ended := ended (output (app s)) |};
                 channel := channel (app s) |};
            queue := queue s |})
    end
  else (Throw TypeError, s).
Proof.
  unfold schedulePart. plumbing.
  destruct (audioContexts (refs (app s))); [| reflexivity].
  unfold decodeChunk. destruct (decoded data) as [b |]; reflexivity.
Qed.

Lemma schedulePart_throws (now : Q) (data : string) (s : Exec) :
  exists e s', schedulePart now data s = (Throw e, s').
Proof.
  rewrite schedulePart_spec.
  destruct (audioContexts (refs (app s))); [| eauto].
  cbn. destruct (decoded data); eauto.
Qed.

(** The loop stops at the first part that carries audio. *)
Lemma forParts_spec (now : Q) (ps : list Part) (s : Exec) :
  forParts now ps s =
  match firstAudioOf ps with
  | Some d => schedulePart now d s
  | None => (Normal tt, s)
  end.
Proof.
  induction ps as [| p rest IH]; [reflexivity|].
  cbn [forParts firstAudioOf]. unfold bind at 1.
  destruct (audioOf p) as [d |].
  - destruct (schedulePart_throws now d s) as (e & s' & H). rewrite H. reflexivity.
  - plumbing. exact IH.
Qed.

Lemma duration_nonneg (b : AudioBuffer) : 0 <= duration b.
Proof. unfold duration, Qle. cbn. lia. Qed.

(** A message that carries audio: the handler ends where the loop body
    throws; nothing after the loop runs. *)
Lemma onmessage_audio (now : Q) (when : UpdaterRun) (m : LiveServerMessage)
    (d : string) (s : Exec) :
  firstAudio m = Some d ->
  onmessage now when m s = schedulePart now d s.
Proof.
  unfold firstAudio, onmessage. intros H.
  destruct (parts m) as [ps |]; [| discriminate].
  unfold bind at 1. rewrite forParts_spec, H.
  destruct (schedulePart_throws now d s) as (e & s' & Hs). rewrite Hs. reflexivity.
Qed.

Lemma step_audio_decoded (a : App) (now : Q) (when : UpdaterRun)
    (m : LiveServerMessage) (d : string) (b : AudioBuffer) :
  audioContexts (refs a) = true ->
  firstAudio m = Some d ->
  decoded d = Some b ->
  step a (Message now when m) =
  {| hooks := hooks a;
     refs := set_nextStartTime (Qmax (nextStartTime (refs a)) now + duration b) (refs a);
     output :=
       {| created := S (created (output a));
          started := (started (output a) ++
            [{| node := created (output a); buffer := b;
                startAt := Qmax (nextStartTime (refs a)) now |}])%list;
          stopped := stopped (output a);
          ended := ended (output a) |};
     channel := channel a |}
  /\ completion a (Message now when m) = Throw TypeError.
Proof.
  intros Hctx Hm Hd. unfold step, completion, handler.
  rewrite (onmessage_audio now when m d _ Hm), schedulePart_spec.
  cbn. rewrite Hctx, Hd. split; reflexivity.
Qed.

Lemma step_audio_failed (a : App) (now : Q) (when : UpdaterRun)
    (m : LiveServerMessage) (d : string) :
  audioContexts (refs a) = true ->
  firstAudio m = Some d ->
  decoded d = None ->
  step a (Message now when m) =
  {| hooks := hooks a;
     refs := set_nextStartTime (Qmax (nextStartTime (refs a)) now) (refs a);
     output := output a;
     channel := channel a |}
  /\ completion a (Message now when m) = Throw ServiceError.
Proof.
  intros Hctx Hm Hd. unfold step, completion, handler.
  rewrite (onmessage_audio now when m d _ Hm), schedulePart_spec.
  cbn. rewrite Hctx, Hd. split; reflexivity.
Qed.

(** A message without audio: the loop does nothing and the four blocks
    that follow it run. *)
Lemma onmessage_no_audio (now : Q) (when : UpdaterRun) (m : LiveServerMessage)
    (s : Exec) :
  firstAudio m = None ->
  onmessage now when m s =
  onmessage now when
    {| parts := None; inputTranscription := inputTranscription m;
       outputTranscription := outputTranscription m;
       turnComplete := turnComplete m; interrupted := interrupted m |} s.
Proof.
  unfold firstAudio, onmessage. intros H. cbn.
  destruct (parts m) as [ps |]; [| reflexivity].
  unfold bind at 1. rewrite forParts_spec, H.
  unfold bind at 5. reflexivity.
Qed.

(** *** Scheduling of inbound audio *)

(** A message whose first audio part is a chunk that decodes to a
    buffer [b], handled at clock time [now]: the source is started exactly
    at [startTime = max(nextStartTime, now)], it is the one source added to
    the output, and afterwards [nextStartTime = startTime + duration], the
    instant that source ends. *)
Theorem chunk_starts_at_max_and_advances (a : App) (now : Q) (when : UpdaterRun)
    (message : LiveServerMessage) (data : string) (b : AudioBuffer) :
  audioContexts (refs a) = true ->
  firstAudio message = Some data ->
  decoded data = Some b ->
  let a' := step a (Message now when message) in
  let startTime := Qmax (nextStartTime (refs a)) now in
  let source := {| node := created (output a); buffer := b; startAt := startTime |} in
  started (output a') = (started (output a) ++ [source])%list /\
  nextStartTime (refs a') = startTime + duration b /\
  nextStartTime (refs a') = endAt source.
Proof.
  intros Hctx Hm Hd.
  destruct (step_audio_decoded a now when message data b Hctx Hm Hd) as [H _].
  cbv zeta. rewrite H. cbn. repeat split.
Qed.

(** Two chunks in two messages, the second arriving before the first has
    finished, play back to back. *)
Lemma consecutive_chunks_gapless (a : App) (now1 now2 : Q) (w1 w2 : UpdaterRun)
    (m1 m2 : LiveServerMessage) (d1 d2 : string) (b1 b2 : AudioBuffer) :
  audioContexts (refs a) = true ->
  firstAudio m1 = Some d1 -> decoded d1 = Some b1 ->
  firstAudio m2 = Some d2 -> decoded d2 = Some b2 ->
  now2 <= Qmax (nextStartTime (refs a)) now1 + duration b1 ->
  exists s1 s2,
    started (output (run [Message now1 w1 m1; Message now2 w2 m2] a)) =
      (started (output a) ++ [s1; s2])%list /\
    startAt s2 == endAt s1.
Proof.
  intros Hctx Hm1 Hd1 Hm2 Hd2 Hnow. unfold run. cbn [fold_left].
  destruct (step_audio_decoded a now1 w1 m1 d1 b1 Hctx Hm1 Hd1) as [H1 _].
  rewrite H1.
  match goal with |- context [step ?x _] => set (a1 := x) end.
  destruct (step_audio_decoded a1 now2 w2 m2 d2 b2 Hctx Hm2 Hd2) as [H2 _].
  rewrite H2. subst a1. cbn.
  do 2 eexists. split.
  - rewrite <- app_assoc. reflexivity.
  - unfold endAt. cbn. apply Q.max_l. exact Hnow.
Qed.

(** *** A chunk that does not decode *)

(** C9, as the code has it. When the first audio part of a message does
    not decode, the handler throws at line 112: nothing is scheduled, the
    rest of the message is dropped, and [nextStartTime] is
    [max(nextStartTime, now)], the value line 111 gave it; it is unchanged
    when the clock has not passed it, and no duration is added.  The
    session goes on: the next chunk starts at [max(nextStartTime, now2)],
    where it would have started had the bad chunk never come. *)
Theorem undecodable_chunk_is_dropped (a : App) (now : Q) (when : UpdaterRun)
    (message : LiveServerMessage) (data : string) :
  audioContexts (refs a) = true ->
  firstAudio message = Some data ->
  decoded data = None ->
  let a' := step a (Message now when message) in
  completion a (Message now when message) = Throw ServiceError /\
  nextStartTime (refs a') = Qmax (nextStartTime (refs a)) now /\
  (now <= nextStartTime (refs a) -> nextStartTime (refs a') == nextStartTime (refs a)) /\
  output a' = output a /\
  hooks a' = hooks a /\
  channel a' = channel a /\
  sources (refs a') = sources (refs a) /\
  transcriptionRef (refs a') = transcriptionRef (refs a) /\
  liveSession (refs a') = liveSession (refs a) /\
  forall (now2 : Q) (w2 : UpdaterRun) (m2 : LiveServerMessage) (d2 : string)
         (b2 : AudioBuffer),
    now <= now2 ->
    firstAudio m2 = Some d2 ->
    decoded d2 = Some b2 ->
    exists s2,
      started (output (step a' (Message now2 w2 m2))) = (started (output a) ++ [s2])%list /\
      buffer s2 = b2 /\
      startAt s2 == Qmax (nextStartTime (refs a)) now2.
Proof.
  intros Hctx Hm Hd.
  destruct (step_audio_failed a now when message data Hctx Hm Hd) as [H Hc].
  cbv zeta. rewrite H.
  repeat (split;
    [first [exact Hc | reflexivity
           | intros Hle; apply Q.max_l; exact Hle] |]).
  intros now2 w2 m2 d2 b2 Hnow Hm2 Hd2.
  match goal with |- context [step ?x _] => set (a1 := x) end.
  destruct (step_audio_decoded a1 now2 w2 m2 d2 b2 Hctx Hm2 Hd2) as [H2 _].
  rewrite H2. subst a1. cbn. eexists. split; [reflexivity|]. split; [reflexivity|].
  cbn. rewrite <- Q.max_assoc. rewrite (Q.max_r now now2 Hnow). reflexivity.
Qed.

(** *** [nextStartTime] along a session *)

Lemma message_refs_no_audio (a : App) (now : Q) (when : UpdaterRun)
    (m : LiveServerMessage) :
  firstAudio m = None ->
  interrupted m = false ->
  nextStartTime (refs (step a (Message now when m))) = nextStartTime (refs a) /\
  sources (refs (step a (Message now when m))) = sources (refs a) /\
  output (step a (Message now when m)) = output a.
Proof.
  intros Hm Hi. unfold step, handler. rewrite (onmessage_no_audio now when m _ Hm).
  unfold onmessage, setHistory. rewrite Hi.
  destruct (inputTranscription m), (outputTranscription m), (turnComplete m), when;
    plumbing; repeat split; reflexivity.
Qed.

Lemma step_uninterrupted_le (a : App) (e : Event) :
  uninterrupted e = true ->
  nextStartTime (refs a) <= nextStartTime (refs (step a e)).
Proof.
  destruct e as [g | n | n | n | now when m | | | n frame | id]; cbn [uninterrupted];
    intros Hu; try discriminate.
  - unfold step, handler, onopen. plumbing.
    destruct (n <? connects (channel a))%nat; apply Qle_refl.
  - unfold step, handler, onresolved. plumbing.
    destruct ((n <? connects (channel a))%nat && negb (memb n (resolved (channel a))));
      apply Qle_refl.
  - unfold step, handler, onrejected. plumbing.
    destruct ((n <? connects (channel a))%nat && negb (memb n (resolved (channel a))));
      apply Qle_refl.
  - apply negb_true_iff in Hu.
    destruct (firstAudio m) as [d |] eqn:Hm.
    + unfold step, handler. rewrite (onmessage_audio now when m d _ Hm), schedulePart_spec.
      cbn. destruct (audioContexts (refs a)); [| apply Qle_refl].
      cbv zeta. destruct (decoded d) as [b |]; cbn.
      * pose proof (duration_nonneg b). pose proof (Q.le_max_l (nextStartTime (refs a)) now).
        lra.
      * apply Q.le_max_l.
    + destruct (message_refs_no_audio a now when m Hm Hu) as [H _]. rewrite H.
      apply Qle_refl.
  - apply Qle_refl.
  - unfold step, handler, onaudioprocess, sendWhenResolved. plumbing.
    destruct (memb n (processors (channel a))); [| apply Qle_refl].
    plumbing. destruct (memb n (resolved (channel a))); apply Qle_refl.
  - unfold step, handler, onended. plumbing.
    destruct (id <? created (output a))%nat; apply Qle_refl.
Qed.

Lemma run_uninterrupted_le (es : list Event) (a : App) :
  Forall (fun e => uninterrupted e = true) es ->
  nextStartTime (refs a) <= nextStartTime (refs (run es a)).
Proof.
  revert a. induction es as [| e rest IH]; intros a H.
  - apply Qle_refl.
  - inversion H as [| ? ? He Hrest]; subst. unfold run in *. cbn [fold_left].
    eapply Qle_trans; [apply (step_uninterrupted_le a e He) | apply IH; exact Hrest].
Qed.

Lemma step_stop_refs (a : App) (e : Event) :
  (e = ChannelError \/ exists g, e = Click g /\ isActive (hooks a) = true) ->
  step a e =
  {| hooks := {| isActive := false; transcription := emptyTranscript;
                 history := history (hooks a) |};
     refs := {| audioContexts := audioContexts (refs a); liveSession := None;
                nextStartTime := 0; sources := [];
                transcriptionRef := emptyTranscript |};
     output := {| created := created (output a); started := started (output a);
                  stopped := (stopped (output a) ++ sources (refs a))%list;
                  ended := ended (output a) |};
     channel := {| connects := connects (channel a); resolved := resolved (channel a);
                   closed := (closed (channel a) ++
                     match liveSession (refs a) with Some n => [n] | None => [] end)%list;
                   processors := processors (channel a);
                   waiting := waiting (channel a); sent := sent (channel a) |} |}.
Proof.
  assert (Hstop : render (snd (stopSession {| app := a; queue := [] |})) =
    {| hooks := {| isActive := false; transcription := emptyTranscript;
                 history := history (hooks a) |};
     refs := {| audioContexts := audioContexts (refs a); liveSession := None;
                nextStartTime := 0; sources := [];
                transcriptionRef := emptyTranscript |};
     output := {| created := created (output a); started := started (output a);
                  stopped := (stopped (output a) ++ sources (refs a))%list;
                  ended := ended (output a) |};
     channel := {| connects := connects (channel a); resolved := resolved (channel a);
                   closed := (closed (channel a) ++
                     match liveSession (refs a) with Some n => [n] | None => [] end)%list;
                   processors := processors (channel a);
                   waiting := waiting (channel a); sent := sent (channel a) |} |}).
  { unfold stopSession, closeSession. plumbing.
    destruct a as [h [ctx live nst srcs tr] o [cn rs cl pr wt st]]. cbn.
    destruct live; plumbing; rewrite stopEach_spec; plumbing;
      unfold render; cbn; rewrite ?app_nil_r; reflexivity. }
  intros [-> | (g & -> & Hact)].
  - exact Hstop.
  - unfold step, handler, startSession. plumbing. rewrite Hact. exact Hstop.
Qed.

Lemma step_audio_hooks (a : App) (now : Q) (when : UpdaterRun)
    (m : LiveServerMessage) (d : string) :
  firstAudio m = Some d ->
  hooks (step a (Message now when m)) = hooks a /\
  sources (refs (step a (Message now when m))) = sources (refs a) /\
  transcriptionRef (refs (step a (Message now when m))) = transcriptionRef (refs a).
Proof.
  intros Hm. unfold step, handler.
  rewrite (onmessage_audio now when m d _ Hm), schedulePart_spec. cbn.
  destruct (audioContexts (refs a)); [| repeat split].
  cbv zeta. destruct (decoded d); repeat split.
Qed.

Lemma step_interrupted_no_audio (a : App) (now : Q) (when : UpdaterRun)
    (m : LiveServerMessage) :
  firstAudio m = None ->
  interrupted m = true ->
  nextStartTime (refs (step a (Message now when m))) = 0%Q /\
  sources (refs (step a (Message now when m))) = [].
Proof.
  intros Hm Hi. unfold step, handler. rewrite (onmessage_no_audio now when m _ Hm).
  unfold onmessage, setHistory, flushPlayback. rewrite Hi.
  destruct (inputTranscription m), (outputTranscription m), (turnComplete m), when;
    plumbing; rewrite stopEach_spec; split; reflexivity.
Qed.

Lemma step_interruptedEvent (a : App) (now : Q) (when : UpdaterRun) :
  step a (Message now when interruptedEvent) =
  {| hooks := hooks a;
     refs := {| audioContexts := audioContexts (refs a);
                liveSession := liveSession (refs a);
                nextStartTime := 0; sources := [];
                transcriptionRef := transcriptionRef (refs a) |};
     output := {| created := created (output a); started := started (output a);
                  stopped := (stopped (output a) ++ sources (refs a))%list;
                  ended := ended (output a) |};
     channel := channel a |}.
Proof.
  unfold step, handler, onmessage, interruptedEvent, flushPlayback. plumbing.
  rewrite stopEach_spec. reflexivity.
Qed.

Lemma step_no_turnComplete_history (a : App) (now : Q) (when : UpdaterRun)
    (m : LiveServerMessage) :
  turnComplete m = false ->
  history (hooks (step a (Message now when m))) = history (hooks a).
Proof.
  intros Ht. destruct (firstAudio m) as [d |] eqn:Hm.
  - destruct (step_audio_hooks a now when m d Hm) as [H _]. rewrite H. reflexivity.
  - unfold step, handler. rewrite (onmessage_no_audio now when m _ Hm).
    unfold onmessage, flushPlayback. rewrite Ht.
    destruct (inputTranscription m), (outputTranscription m), (interrupted m);
      plumbing; rewrite ?stopEach_spec; reflexivity.
Qed.

(** C5. Along any run of events of one uninterrupted segment (no message
    flagged [interrupted], no stop), [nextStartTime] never decreases from
    one point of the run to a later one; and it is 0 right after the
    cancellation of playback: after a message whose [interrupted] branch
    runs, after a press of the button while active, and after a channel
    error. *)
Theorem nextStartTime_monotone_then_reset :
  (forall (earlier later : list Event) (a : App),
     Forall (fun e => uninterrupted e = true) later ->
     nextStartTime (refs (run earlier a)) <=
     nextStartTime (refs (run (earlier ++ later) a))) /\
  (forall (a : App) (now : Q) (when : UpdaterRun) (m : LiveServerMessage),
     interrupted m = true -> firstAudio m = None ->
     nextStartTime (refs (step a (Message now when m))) = 0%Q) /\
  (forall (a : App) (micGranted : bool),
     isActive (hooks a) = true ->
     nextStartTime (refs (step a (Click micGranted))) = 0%Q) /\
  (forall a : App, nextStartTime (refs (step a ChannelError)) = 0%Q).
Proof.
  split; [| split; [| split]].
  - intros earlier later a H. unfold run. rewrite fold_left_app.
    apply (run_uninterrupted_le later _ H).
  - intros a now when m Hi Hm.
    apply (step_interrupted_no_audio a now when m Hm Hi).
  - intros a g Hact. rewrite (step_stop_refs a (Click g)); [reflexivity|].
    right. exists g. split; [reflexivity | exact Hact].
  - intros a. rewrite (step_stop_refs a ChannelError); [reflexivity|].
    left. reflexivity.
Qed.

(** *** Interruption and the transcript *)

(** C3, as the code has it. The [interrupted] branch (lines 150-154) does
    not touch the transcript: after an interrupted event both accumulators
    of [transcriptionRef] and the displayed [transcription] are what they
    were.  No entry is added to [history] by the event, nor by any message
    whose [turnComplete] flag is not set. *)
Theorem interrupted_keeps_transcript :
  (forall (a : App) (now : Q) (when : UpdaterRun),
     let a' := step a (Message now when interruptedEvent) in
     transcriptionRef (refs a') = transcriptionRef (refs a) /\
     transcription (hooks a') = transcription (hooks a) /\
     history (hooks a') = history (hooks a)) /\
  (forall (a : App) (now : Q) (when : UpdaterRun) (m : LiveServerMessage),
     turnComplete m = false ->
     history (hooks (step a (Message now when m))) = history (hooks a)).
Proof.
  split.
  - intros a now when. cbv zeta. rewrite step_interruptedEvent. repeat split.
  - exact step_no_turnComplete_history.
Qed.

(** C10. An interrupted event changes playback state only: every source
    of the set is stopped, the set is emptied and [nextStartTime] is 0; the
    three state hooks ([isActive], [transcription], [history]), the channel,
    [liveSession], the transcript accumulators and the sources already
    created are unchanged.  An active session is still active. *)
Theorem interrupted_changes_playback_only (a : App) (now : Q) (when : UpdaterRun) :
  let a' := step a (Message now when interruptedEvent) in
  stopped (output a') = (stopped (output a) ++ sources (refs a))%list /\
  sources (refs a') = [] /\
  nextStartTime (refs a') = 0%Q /\
  isActive (hooks a') = isActive (hooks a) /\
  history (hooks a') = history (hooks a) /\
  hooks a' = hooks a /\
  channel a' = channel a /\
  liveSession (refs a') = liveSession (refs a) /\
  audioContexts (refs a') = audioContexts (refs a) /\
  transcriptionRef (refs a') = transcriptionRef (refs a) /\
  created (output a') = created (output a) /\
  started (output a') = started (output a) /\
  ended (output a') = ended (output a).
Proof.
  cbv zeta. rewrite step_interruptedEvent. repeat split.
Qed.

(** *** Turn completion and the history *)

Lemma sliceLast2_length {A : Type} (l : list A) :
  (List.length (sliceLast2 l) <= 2)%nat.
Proof. unfold sliceLast2. rewrite length_skipn. lia. Qed.

(** [slice(-2)] drops from the front: the oldest entries go first. *)
Lemma sliceLast2_suffix {A : Type} (l : list A) :
  exists dropped, l = (dropped ++ sliceLast2 l)%list /\
                  List.length dropped = (List.length l - 2)%nat.
Proof.
  exists (firstn (List.length l - 2) l). split.
  - unfold sliceLast2. symmetry. apply firstn_skipn.
  - rewrite length_firstn. lia.
Qed.

Lemma sliceLast2_short {A : Type} (l : list A) :
  (List.length l <= 2)%nat -> sliceLast2 l = l.
Proof.
  intros H. unfold sliceLast2.
  replace (List.length l - 2)%nat with 0%nat by lia. reflexivity.
Qed.

(** When React runs the updater at render, the reset of line 147 has
    already replaced [transcriptionRef.current]: the updater finds both
    accumulators empty and adds no entry. *)
Lemma turnComplete_at_render (a : App) (now : Q) (m : LiveServerMessage) :
  firstAudio m = None ->
  turnComplete m = true ->
  let a' := step a (Message now AtRender m) in
  history (hooks a') = sliceLast2 (history (hooks a)) /\
  transcriptionRef (refs a') = emptyTranscript /\
  transcription (hooks a') = emptyTranscript.
Proof.
  intros Hm Ht. cbv zeta. unfold step, handler.
  rewrite (onmessage_no_audio now AtRender m _ Hm).
  unfold onmessage, setHistory, flushPlayback. rewrite Ht.
  destruct (inputTranscription m), (outputTranscription m), (interrupted m);
    plumbing; rewrite ?stopEach_spec; unfold render, historyUpdater; cbn;
    rewrite app_nil_r; repeat split.
Qed.

(** When React runs the updater at the call, it reads the accumulators
    before line 147 clears them. *)
Lemma turnComplete_at_call (a : App) (now : Q) :
  let a' := step a (Message now AtCall turnCompleteEvent) in
  history (hooks a') = historyUpdater (refs a) (history (hooks a)) /\
  transcriptionRef (refs a') = emptyTranscript /\
  transcription (hooks a') = emptyTranscript.
Proof.
  cbv zeta. unfold step, handler, onmessage, turnCompleteEvent, setHistory.
  plumbing. repeat split.
Qed.

(** Every handler leaves [history] alone or passes it through
    [slice(-2)]: it never holds more than two entries. *)
Lemma step_history_bounded (a : App) (e : Event) :
  (List.length (history (hooks a)) <= 2)%nat ->
  (List.length (history (hooks (step a e))) <= 2)%nat.
Proof.
  intros Hb.
  destruct e as [g | n | n | n | now when m | | | n frame | id].
  - destruct (isActive (hooks a)) eqn:Hact.
    + rewrite (step_stop_refs a (Click g)); [exact Hb|]. right. eauto.
    + unfold step, handler, startSession, connect. plumbing. rewrite Hact.
      destruct g; exact Hb.
  - unfold step, handler, onopen. plumbing.
    destruct (n <? connects (channel a))%nat; exact Hb.
  - unfold step, handler, onresolved. plumbing.
    destruct ((n <? connects (channel a))%nat && negb (memb n (resolved (channel a))));
      exact Hb.
  - unfold step, handler, onrejected. plumbing.
    destruct ((n <? connects (channel a))%nat && negb (memb n (resolved (channel a))));
      exact Hb.
  - destruct (turnComplete m) eqn:Ht.
    + destruct (firstAudio m) as [d |] eqn:Hm.
      * destruct (step_audio_hooks a now when m d Hm) as [H _]. rewrite H. exact Hb.
      * unfold step, handler. rewrite (onmessage_no_audio now when m _ Hm).
        unfold onmessage, setHistory, flushPlayback, historyUpdater. rewrite Ht.
        destruct (inputTranscription m), (outputTranscription m), (interrupted m), when;
          plumbing; rewrite ?stopEach_spec; cbn; apply sliceLast2_length.
    + rewrite (step_no_turnComplete_history a now when m Ht). exact Hb.
  - rewrite (step_stop_refs a ChannelError); [exact Hb | left; reflexivity].
  - exact Hb.
  - unfold step, handler, onaudioprocess, sendWhenResolved. plumbing.
    destruct (memb n (processors (channel a))); [| exact Hb].
    plumbing. destruct (memb n (resolved (channel a))); exact Hb.
  - unfold step, handler, onended. plumbing.
    destruct (id <? created (output a))%nat; exact Hb.
Qed.

Lemma run_history_bounded (es : list Event) :
  (List.length (history (hooks (run es initialApp))) <= 2)%nat.
Proof.
  assert (H : forall a, (List.length (history (hooks a)) <= 2)%nat ->
                        (List.length (history (hooks (run es a))) <= 2)%nat).
  { induction es as [| e rest IH]; intros a Ha; [exact Ha|].
    unfold run in *. cbn [fold_left]. apply IH, step_history_bounded, Ha. }
  apply H. cbn. lia.
Qed.

(** *** The set of active sources *)

(** No message adds to [sources.current]: the set is kept or emptied. *)
Lemma message_never_registers (a : App) (now : Q) (when : UpdaterRun)
    (m : LiveServerMessage) :
  sources (refs (step a (Message now when m))) = sources (refs a) \/
  sources (refs (step a (Message now when m))) = [].
Proof.
  destruct (firstAudio m) as [d |] eqn:Hm.
  - left. apply (step_audio_hooks a now when m d Hm).
  - destruct (interrupted m) eqn:Hi.
    + right. apply (step_interrupted_no_audio a now when m Hm Hi).
    + left. apply (message_refs_no_audio a now when m Hm Hi).
Qed.

(** A chunk that decodes: its source is scheduled on the output and is not
    in the set. *)
Lemma scheduled_source_not_in_set (a : App) (now : Q) (when : UpdaterRun)
    (m : LiveServerMessage) (d : string) (b : AudioBuffer) :
  audioContexts (refs a) = true ->
  firstAudio m = Some d ->
  decoded d = Some b ->
  memb (created (output a)) (stopped (output a)) = false ->
  memb (created (output a)) (ended (output a)) = false ->
  ~ In (created (output a)) (sources (refs a)) ->
  In (created (output a)) (playing (output (step a (Message now when m)))) /\
  ~ In (created (output a)) (sources (refs (step a (Message now when m)))).
Proof.
  intros Hctx Hm Hd Hs He Hin.
  destruct (step_audio_decoded a now when m d b Hctx Hm Hd) as [H _]. rewrite H.
  cbn. split; [| exact Hin].
  unfold playing. cbn. apply filter_In. split.
  - rewrite map_app. apply in_or_app. right. left. reflexivity.
  - fold (memb (created (output a)) (stopped (output a))).
    fold (memb (created (output a)) (ended (output a))).
    rewrite Hs, He. reflexivity.
Qed.

(** From the initial state the set is empty after every run of events,
    whatever was scheduled. *)
Lemma step_sources_empty (a : App) (e : Event) :
  sources (refs a) = [] -> sources (refs (step a e)) = [].
Proof.
  intros Hs.
  destruct e as [g | n | n | n | now when m | | | n frame | id].
  - destruct (isActive (hooks a)) eqn:Hact.
    + rewrite (step_stop_refs a (Click g)); [reflexivity|]. right. eauto.
    + unfold step, handler, startSession, connect. plumbing. rewrite Hact.
      destruct g; exact Hs.
  - unfold step, handler, onopen. plumbing.
    destruct (n <? connects (channel a))%nat; exact Hs.
  - unfold step, handler, onresolved. plumbing.
    destruct ((n <? connects (channel a))%nat && negb (memb n (resolved (channel a))));
      exact Hs.
  - unfold step, handler, onrejected. plumbing.
    destruct ((n <? connects (channel a))%nat && negb (memb n (resolved (channel a))));
      exact Hs.
  - destruct (message_never_registers a now when m) as [H | H]; rewrite H;
      [exact Hs | reflexivity].
  - rewrite (step_stop_refs a ChannelError); [reflexivity | left; reflexivity].
  - exact Hs.
  - unfold step, handler, onaudioprocess, sendWhenResolved. plumbing.
    destruct (memb n (processors (channel a))); [| exact Hs].
    plumbing. destruct (memb n (resolved (channel a))); exact Hs.
  - unfold step, handler, onended. plumbing.
    destruct (id <? created (output a))%nat; [| exact Hs].
    cbn. rewrite Hs. reflexivity.
Qed.

Lemma run_sources_empty (es : list Event) :
  sources (refs (run es initialApp)) = [].
Proof.
  assert (H : forall a, sources (refs a) = [] -> sources (refs (run es a)) = []).
  { induction es as [| e rest IH]; intros a Ha; [exact Ha|].
    unfold run in *. cbn [fold_left]. apply IH, step_sources_empty, Ha. }
  apply H. reflexivity.
Qed.

(** The ['ended'] listener removes its source from the set. *)
Lemma ended_removes_source (a : App) (id : nat) :
  (id < created (output a))%nat ->
  sources (refs (step a (Ended id))) = remove Nat.eq_dec id (sources (refs a)) /\
  ~ In id (sources (refs (step a (Ended id)))).
Proof.
  intros H. apply Nat.ltb_lt in H.
  unfold step, handler, onended. plumbing. rewrite H. cbn.
  split; [reflexivity | apply remove_In].
Qed.

(** *** The button *)

Lemma step_click_inactive (a : App) :
  isActive (hooks a) = false ->
  step a (Click true) =
  {| hooks := hooks a;
     refs := set_audioContexts true (refs a);
     output := output a;
     channel := {| connects := S (connects (channel a));
                   resolved := resolved (channel a); closed := closed (channel a);
                   processors := processors (channel a);
                   waiting := waiting (channel a); sent := sent (channel a) |} |}.
Proof.
  intros H. unfold step, handler, startSession, connect. plumbing. rewrite H.
  reflexivity.
Qed.

(** C7, as the code has it. The button tests [isActive] alone.  When it
    is true (the channel has opened) the press runs [stopSession] and
    starts nothing: the session held in [liveSession] is closed, every
    source of the set is stopped and the set emptied, [nextStartTime] is 0
    and the transcript is cleared; the script processors stay connected.
    When it is false, which includes the time between the call of
    [connect] and [onopen], the press stops nothing and opens one more
    connection. *)
Theorem click_toggles_on_isActive (a : App) :
  (isActive (hooks a) = true ->
   forall micGranted : bool,
   let a' := step a (Click micGranted) in
   connects (channel a') = connects (channel a) /\
   isActive (hooks a') = false /\
   closed (channel a') =
     (closed (channel a) ++
      match liveSession (refs a) with Some n => [n] | None => [] end)%list /\
   liveSession (refs a') = None /\
   stopped (output a') = (stopped (output a) ++ sources (refs a))%list /\
   sources (refs a') = [] /\
   nextStartTime (refs a') = 0%Q /\
   transcriptionRef (refs a') = emptyTranscript /\
   transcription (hooks a') = emptyTranscript /\
   processors (channel a') = processors (channel a)) /\
  (isActive (hooks a) = false ->
   let a' := step a (Click true) in
   connects (channel a') = S (connects (channel a)) /\
   isActive (hooks a') = false /\
   closed (channel a') = closed (channel a) /\
   liveSession (refs a') = liveSession (refs a) /\
   output a' = output a /\
   sources (refs a') = sources (refs a) /\
   nextStartTime (refs a') = nextStartTime (refs a) /\
   transcriptionRef (refs a') = transcriptionRef (refs a) /\
   transcription (hooks a') = transcription (hooks a)).
Proof.
  split.
  - intros Hact g. cbv zeta. rewrite (step_stop_refs a (Click g)).
    + repeat split.
    + right. exists g. split; [reflexivity | exact Hact].
  - intros Hact. cbv zeta. rewrite (step_click_inactive a Hact). cbn.
    rewrite Hact. repeat split.
Qed.

(** *** Capture after a stop *)



End SessionFacts.

(** * The scenarios, run with [scenarioService] *)

Section Scenarios.

Existing Instance scenarioService.

Local Open Scope Q_scope.

(** [audio(0.5s), audio(0.3s)] with [nextStartTime] 0 and the clock at 10:
    the first source plays over [10, 10.5], the second over [10.5, 10.8]. *)
Lemma two_chunks_back_to_back :
  let a1 := step activeApp (Message 10 AtRender (audioEvent "chunk-500ms")) in
  let a2 := step a1 (Message 10 AtRender (audioEvent "chunk-300ms")) in
  nextStartTime (refs activeApp) = 0 /\
  exists s1 s2,
    started (output a2) = [s1; s2] /\
    startAt s1 == 10 /\ endAt s1 == 21 # 2 /\
    startAt s2 == 21 # 2 /\ endAt s2 == 54 # 5 /\
    nextStartTime (refs a2) == 54 # 5.
Proof.
  cbv zeta.
  assert (Hctx : audioContexts (refs activeApp) = true) by reflexivity.
  assert (Hd1 : decoded "chunk-500ms" = Some halfSecond) by (vm_compute; reflexivity).
  assert (Hd2 : decoded "chunk-300ms" = Some threeTenths) by (vm_compute; reflexivity).
  destruct (chunk_starts_at_max_and_advances activeApp 10 AtRender
              (audioEvent "chunk-500ms") "chunk-500ms" halfSecond
              Hctx eq_refl Hd1) as (Hs1 & Hn1 & _).
  cbv zeta in Hs1, Hn1.
  set (a1 := step activeApp (Message 10 AtRender (audioEvent "chunk-500ms"))) in *.
  assert (Hctx1 : audioContexts (refs a1) = true) by reflexivity.
  destruct (chunk_starts_at_max_and_advances a1 10 AtRender
              (audioEvent "chunk-300ms") "chunk-300ms" threeTenths
              Hctx1 eq_refl Hd2) as (Hs2 & Hn2 & _).
  cbv zeta in Hs2, Hn2.
  split; [reflexivity|].
  eexists. eexists. split.
  - rewrite Hs2, Hs1. reflexivity.
  - rewrite Hn2, Hn1. repeat split; vm_compute; reflexivity.
Defined.

(** A chunk that does not decode, with the clock ahead of
    [nextStartTime]: the value is not left as it was. *)
Lemma garbled_chunk_moves_nextStartTime :
  decoded "garbled" = None /\
  nextStartTime (refs activeApp) == 0 /\
  ~ nextStartTime (refs (step activeApp (Message 10 AtRender (audioEvent "garbled"))))
    == nextStartTime (refs activeApp).
Proof.
  split; [vm_compute; reflexivity|].
  split; [reflexivity|].
  intros H. vm_compute in H. discriminate H.
Qed.

(** The same chunk while half a second of audio is still queued: nothing
    is scheduled for it, and the next chunk follows the first one without
    a gap. *)
Lemma garbled_chunk_between_two :
  let a1 := step activeApp (Message 10 AtRender (audioEvent "chunk-500ms")) in
  let a2 := step a1 (Message 10 AtRender (audioEvent "garbled")) in
  let a3 := step a2 (Message (41 # 4) AtRender (audioEvent "chunk-300ms")) in
  completion a1 (Message 10 AtRender (audioEvent "garbled")) = Throw ServiceError /\
  nextStartTime (refs a2) == nextStartTime (refs a1) /\
  started (output a2) = started (output a1) /\
  isActive (hooks a2) = true /\
  exists s1 s3,
    started (output a3) = [s1; s3] /\ buffer s3 = threeTenths /\ startAt s3 == endAt s1.
Proof.
  cbv zeta.
  set (a1 := step activeApp (Message 10 AtRender (audioEvent "chunk-500ms"))).
  assert (Hctx : audioContexts (refs a1) = true) by reflexivity.
  assert (Hbad : decoded "garbled" = None) by (vm_compute; reflexivity).
  assert (Hok : decoded "chunk-300ms" = Some threeTenths) by (vm_compute; reflexivity).
  assert (Hle : 10 <= nextStartTime (refs a1)) by (vm_compute; discriminate).
  assert (Hnow : 10 <= 41 # 4) by (vm_compute; discriminate).
  destruct (undecodable_chunk_is_dropped a1 10 AtRender (audioEvent "garbled")
              "garbled" Hctx eq_refl Hbad)
    as (Hc & _ & Hsame & Hout & Hhooks & _ & _ & _ & _ & Hnext).
  cbv zeta in Hsame, Hout, Hhooks, Hnext.
  split; [exact Hc|].
  split; [exact (Hsame Hle)|].
  split; [rewrite Hout; reflexivity|].
  split; [rewrite Hhooks; reflexivity|].
  destruct (Hnext (41 # 4) AtRender (audioEvent "chunk-300ms") "chunk-300ms"
              threeTenths Hnow eq_refl Hok) as (s3 & Hs3 & Hb3 & Ht3).
  exists {| node := 0; buffer := halfSecond; startAt := 10 |}, s3.
  split; [rewrite Hs3; reflexivity|].
  split; [exact Hb3|].
  rewrite Ht3. vm_compute. reflexivity.
Defined.

(** [nextStartTime] along two chunks and the end of the first, then an
    interruption, or a press of the button. *)
Lemma nextStartTime_two_chunks_then_flush :
  let chunk1 := Message 10 AtRender (audioEvent "chunk-500ms") in
  let chunk2 := Message 10 AtRender (audioEvent "chunk-300ms") in
  let a2 := run [chunk1; chunk2] activeApp in
  nextStartTime (refs (run [chunk1] activeApp)) <=
    nextStartTime (refs (run ([chunk1] ++ [chunk2; Ended 0%nat]) activeApp)) /\
  nextStartTime (refs a2) == 54 # 5 /\
  nextStartTime (refs (step a2 (Message 11 AtRender interruptedEvent))) = 0 /\
  nextStartTime (refs (step a2 (Click true))) = 0.
Proof.
  cbv zeta.
  destruct (@nextStartTime_monotone_then_reset scenarioService)
    as (Hmono & Hint & Hclick & _).
  split; [apply Hmono; repeat constructor|].
  split; [vm_compute; reflexivity|].
  split; [apply Hint; reflexivity | apply Hclick; reflexivity].
Defined.

(** [user-delta("Wait"), interrupted]: the user accumulator and the line
    on display still hold the text. *)
Lemma wait_survives_interruption :
  let final := run [Message 10 AtRender (userDelta "Wait");
                    Message 11 AtRender interruptedEvent] activeApp in
  user (transcriptionRef (refs final)) = "Wait"%string /\
  user (transcription (hooks final)) = "Wait"%string /\
  transcriptionRef (refs final) <> emptyTranscript.
Proof.
  cbv zeta. split; [reflexivity|]. split; [reflexivity|].
  intros H. vm_compute in H. discriminate H.
Qed.

Lemma wait_interrupted_adds_no_record :
  let a1 := step activeApp (Message 10 AtRender (userDelta "Wait")) in
  let a2 := step a1 (Message 11 AtRender interruptedEvent) in
  history (hooks a1) = history (hooks activeApp) /\
  history (hooks a2) = history (hooks a1) /\
  transcriptionRef (refs a2) = transcriptionRef (refs a1) /\
  history (hooks a2) = [].
Proof.
  cbv zeta.
  destruct (@interrupted_keeps_transcript scenarioService) as [Hint Hno].
  set (a1 := step activeApp (Message 10 AtRender (userDelta "Wait"))).
  destruct (Hint a1 11 AtRender) as (Href & _ & Hhist).
  cbv zeta in Href, Hhist.
  pose proof (Hno activeApp 10 AtRender (userDelta "Wait") eq_refl) as H1.
  fold a1 in H1.
  split; [exact H1|]. split; [exact Hhist|]. split; [exact Href|].
  rewrite Hhist, H1. reflexivity.
Defined.

(** C4, at one decodable chunk. Line 119 throws after line 117 started
    the source: the source is scheduled on the output, the set of active
    sources stays empty, and an interruption that follows finds nothing to
    stop; the source ends only by itself. *)
Theorem started_source_missing_from_set :
  let chunk := Message 10 AtRender (audioEvent "chunk-500ms") in
  let a1 := step activeApp chunk in
  let a2 := step a1 (Message (41 # 4) AtRender interruptedEvent) in
  completion activeApp chunk = Throw TypeError /\
  playing (output a1) = [0%nat] /\
  sources (refs a1) = [] /\
  stopped (output a2) = [] /\
  playing (output a2) = [0%nat] /\
  playing (output (step a2 (Ended 0%nat))) = [].
Proof.
  cbv zeta. repeat split; vm_compute; reflexivity.
Qed.

(** C6, at [assistant-delta("Hello"), assistant-delta(" there"),
    turn-complete], the updater run at render: the accumulator holds
    "Hello there" when the turn completes, both accumulators are empty
    afterwards, and [history] has no entry. *)
Theorem hello_there_turn_not_recorded :
  let deltas := [Message 10 AtRender (assistantDelta "Hello");
                 Message 11 AtRender (assistantDelta " there")] in
  let a2 := run deltas activeApp in
  let a3 := step a2 (Message 12 AtRender turnCompleteEvent) in
  transcriptionRef (refs a2) = {| user := ""; ai := "Hello there" |} /\
  completion a2 (Message 12 AtRender turnCompleteEvent) = Normal tt /\
  history (hooks a3) = [] /\
  transcriptionRef (refs a3) = emptyTranscript /\
  transcription (hooks a3) = emptyTranscript.
Proof.
  cbv zeta. repeat split; vm_compute; reflexivity.
Qed.

(** The same turn when React runs the updater at the call. *)
Lemma hello_there_turn_recorded_at_call :
  let deltas := [Message 10 AtRender (assistantDelta "Hello");
                 Message 11 AtRender (assistantDelta " there")] in
  let a3 := step (run deltas activeApp) (Message 12 AtCall turnCompleteEvent) in
  history (hooks a3) = [{| text := "Hello there"; role := RoleAi |}] /\
  transcriptionRef (refs a3) = emptyTranscript.
Proof.
  cbv zeta. split; vm_compute; reflexivity.
Qed.

(** A second press of the button before the channel has opened: nothing
    is stopped and a second connection is begun. *)
Lemma second_click_while_connecting :
  let connecting := step initialApp (Click true) in
  let a' := step connecting (Click true) in
  connects (channel connecting) = 1%nat /\
  processors (channel connecting) = [] /\
  resolved (channel connecting) = [] /\
  isActive (hooks connecting) = false /\
  connects (channel a') = 2%nat /\
  closed (channel a') = [] /\
  connects (channel a') <> connects (channel connecting).
Proof.
  cbv zeta. repeat split; try (vm_compute; reflexivity).
  vm_compute. discriminate.
Qed.

Lemma click_when_active_and_when_not :
  let stoppedApp := step activeApp (Click true) in
  let connecting := step initialApp (Click true) in
  isActive (hooks stoppedApp) = false /\
  closed (channel stoppedApp) = [0%nat] /\
  connects (channel stoppedApp) = 1%nat /\
  processors (channel stoppedApp) = [0%nat] /\
  connects (channel (step connecting (Click true))) = 2%nat.
Proof.
  cbv zeta.
  destruct (@click_toggles_on_isActive scenarioService activeApp) as [Hon _].
  destruct (@click_toggles_on_isActive scenarioService (step initialApp (Click true)))
    as [_ Hoff].
  assert (Hact : isActive (hooks activeApp) = true) by reflexivity.
  assert (Hcon : isActive (hooks (step initialApp (Click true))) = false) by reflexivity.
  destruct (Hon Hact true) as (Hc & Ha & Hcl & _ & _ & _ & _ & _ & _ & Hp).
  destruct (Hoff Hcon) as (Hc2 & _).
  cbv zeta in Hc, Ha, Hcl, Hp, Hc2.
  split; [exact Ha|].
  split; [rewrite Hcl; reflexivity|].
  split; [rewrite Hc; reflexivity|].
  split; [rewrite Hp; reflexivity|].
  rewrite Hc2. reflexivity.
Defined.



End Scenarios.

(** * Further properties *)

(** ** The encoder as a function of the sample *)

Section EncoderShape.

Import Encoder.
Local Open Scope Z_scope.

Lemma truncate_Qeq (p q : Q) : (p == q)%Q -> truncate p = truncate q.
Proof.
  destruct p as [a d], q as [a' d']. unfold Qeq, truncate. cbn [Qnum Qden].
  intros H.
  rewrite <- (Z.quot_mul_cancel_r a (Z.pos d) (Z.pos d')) by lia.
  rewrite <- (Z.quot_mul_cancel_r a' (Z.pos d') (Z.pos d)) by lia.
  rewrite H. f_equal. lia.
Qed.

Lemma truncate_le (p q : Q) : (p <= q)%Q -> truncate p <= truncate q.
Proof.
  destruct p as [a d], q as [a' d']. unfold Qle, truncate. cbn [Qnum Qden].
  intros H.
  rewrite <- (Z.quot_mul_cancel_r a (Z.pos d) (Z.pos d')) by lia.
  rewrite <- (Z.quot_mul_cancel_r a' (Z.pos d') (Z.pos d)) by lia.
  replace (Z.pos d' * Z.pos d) with (Z.pos d * Z.pos d') by lia.
  apply Z.quot_le_mono; lia.
Qed.

Lemma truncate_opp (q : Q) : truncate (- q) = - truncate q.
Proof.
  destruct q as [a d]. unfold truncate, Qopp. cbn [Qnum Qden].
  apply Z.quot_opp_l. lia.
Qed.

Lemma encodeSample_Fin (q : Q) :
  encodeSample (Fin q) = truncate (clamp (q * headroom) * fullScale).
Proof.
  destruct (encodeSample_truncates (Fin q)) as [H _]. exact H.
Qed.

Lemma clamp_le (p q : Q) : (p <= q)%Q -> (clamp p <= clamp q)%Q.
Proof.
  intros H. unfold clamp.
  apply Q.max_le_compat_l, Q.min_le_compat_l, H.
Qed.

Lemma clamp_opp (q : Q) : (clamp (- q) == - clamp q)%Q.
Proof.
  unfold clamp.
  destruct (Q.min_spec 1 q) as [[H1 E1] | [H1 E1]];
  destruct (Q.min_spec 1 (- q)) as [[H2 E2] | [H2 E2]];
  rewrite E1, E2;
  destruct (Q.max_spec (-1 # 1) q) as [[H3 E3] | [H3 E3]];
  destruct (Q.max_spec (-1 # 1) (- q)) as [[H4 E4] | [H4 E4]];
  destruct (Q.max_spec (-1 # 1) 1) as [[H5 E5] | [H5 E5]];
  rewrite ?E3, ?E4, ?E5; lra.
Qed.

(** The encoder keeps the order of samples: a larger sample never stores
    a smaller integer. *)
Theorem encodeSample_monotone (p q : Q) :
  (p <= q)%Q -> encodeSample (Fin p) <= encodeSample (Fin q).
Proof.
  intros H. rewrite !encodeSample_Fin. apply truncate_le.
  apply Qmult_le_compat_r; [| discriminate].
  apply clamp_le. apply Qmult_le_compat_r; [exact H | discriminate].
Qed.

(** The encoder is odd: negating a sample negates the stored integer. *)
Theorem encodeSample_opp (q : Q) :
  encodeSample (Fin (- q)) = - encodeSample (Fin q).
Proof.
  rewrite !encodeSample_Fin, <- truncate_opp. apply truncate_Qeq.
  assert (E : (- q * headroom == - (q * headroom))%Q) by ring.
  unfold clamp at 1. rewrite E. fold (clamp (- (q * headroom))).
  rewrite clamp_opp. ring.
Qed.

(** Between -10/9 and 10/9 nothing is clipped: the stored integer is the
    sample times 0.9 times 32767, truncated toward zero. *)
Theorem encodeSample_linear_range (q : Q) :
  (- (10 # 9) <= q)%Q -> (q <= 10 # 9)%Q ->
  encodeSample (Fin q) = truncate (q * headroom * fullScale).
Proof.
  intros Hlo Hhi. rewrite encodeSample_Fin. apply truncate_Qeq.
  assert (Hh : (-1 # 1 <= q * headroom)%Q /\ (q * headroom <= 1)%Q).
  { unfold headroom. split; lra. }
  destruct Hh as [H1 H2]. unfold clamp.
  rewrite (Q.min_r 1 (q * headroom) H2), (Q.max_r (-1 # 1) (q * headroom) H1).
  reflexivity.
Qed.

(** From 10/9 upward, and for +Infinity, the store saturates at 32767;
    from -10/9 downward, and for -Infinity, at -32767; NaN stores 0. *)
Theorem encodeSample_saturates :
  (forall q : Q, (10 # 9 <= q)%Q -> encodeSample (Fin q) = 32767) /\
  (forall q : Q, (q <= - (10 # 9))%Q -> encodeSample (Fin q) = -32767) /\
  encodeSample PInf = 32767 /\
  encodeSample NInf = -32767 /\
  encodeSample NaN = 0.
Proof.
  split; [| split; [| repeat split]].
  - intros q H. rewrite encodeSample_Fin.
    assert (E : (clamp (q * headroom) * fullScale == 32767 # 1)%Q).
    { assert (H1 : (1 <= q * headroom)%Q) by (unfold headroom; lra).
      unfold clamp. rewrite (Q.min_l 1 (q * headroom) H1).
      rewrite (Q.max_r (-1 # 1) 1) by discriminate. reflexivity. }
    rewrite (truncate_Qeq _ _ E). reflexivity.
  - intros q H. rewrite encodeSample_Fin.
    assert (E : (clamp (q * headroom) * fullScale == -32767 # 1)%Q).
    { assert (H1 : (q * headroom <= -1 # 1)%Q) by (unfold headroom; lra).
      assert (H2 : (q * headroom <= 1)%Q) by lra.
      unfold clamp. rewrite (Q.min_r 1 (q * headroom) H2).
      rewrite (Q.max_l (-1 # 1) (q * headroom) H1). reflexivity. }
    rewrite (truncate_Qeq _ _ E). reflexivity.
Qed.

(** *** The bytes of a frame *)

Lemma frameBytes_length (samples : list Z) :
  List.length (frameBytes samples) = (2 * List.length samples)%nat.
Proof.
  induction samples as [| s rest IH]; [reflexivity|].
  cbn [frameBytes]. rewrite length_app, IH. cbn. lia.
Qed.

Lemma frameBytes_range (samples : list Z) :
  Forall (fun b => 0 <= b < 256) (frameBytes samples).
Proof.
  induction samples as [| s rest IH]; [constructor|].
  cbn [frameBytes int16Bytes app].
  constructor; [apply Z.mod_pos_bound; lia|].
  constructor; [apply Z.mod_pos_bound; lia | exact IH].
Qed.

Lemma frameBytes_inj (xs ys : list Z) :
  Forall (fun s => -32768 <= s <= 32767) xs ->
  Forall (fun s => -32768 <= s <= 32767) ys ->
  frameBytes xs = frameBytes ys -> xs = ys.
Proof.
  intros Hx. revert ys. induction Hx as [| x xs Hxr Hxs IH]; intros ys Hy E.
  - destruct ys as [| y ys]; [reflexivity | discriminate E].
  - destruct ys as [| y ys]; [discriminate E|].
    inversion Hy as [| ? ? Hyr Hys]; subst.
    cbn [frameBytes int16Bytes app] in E.
    injection E as Elo Ehi Erest.
    assert (Es : readInt16 (int16Bytes x) = readInt16 (int16Bytes y)).
    { unfold int16Bytes. rewrite Elo, Ehi. reflexivity. }
    rewrite !readInt16_int16Bytes in Es by assumption.
    injection Es as ->. f_equal. apply IH; assumption.
Qed.

(** The payload of a capture frame is two bytes per sample, each byte in
    0..255, and it determines the encoded samples: two frames with the same
    bytes have the same encoding. *)
Theorem frame_payload_faithful (frame other : list Number) :
  List.length (frameBytes (encodeFrame frame)) = (2 * List.length frame)%nat /\
  Forall (fun b => 0 <= b < 256) (frameBytes (encodeFrame frame)) /\
  (frameBytes (encodeFrame frame) = frameBytes (encodeFrame other) ->
   encodeFrame frame = encodeFrame other).
Proof.
  split; [| split].
  - rewrite frameBytes_length. unfold encodeFrame. rewrite length_map. reflexivity.
  - apply frameBytes_range.
  - assert (Hrange : forall l, Forall (fun s => -32768 <= s <= 32767) (encodeFrame l)).
    { intros l. unfold encodeFrame. apply Forall_map, Forall_forall. intros x _.
      pose proof (encodeSample_truncates x). lia. }
    apply frameBytes_inj; apply Hrange.
Qed.

End EncoderShape.

(** ** More on the session *)

Section SessionMore.

Context {service : GeminiService}.

Local Open Scope Q_scope.

Ltac plumbing :=
  unfold bind, ret, throw, tryCatch, modify, dispatch, guarded,
    getRefs, getHooks, getOutput, getChannel,
    withRefs, withOutput, withChannel;
  cbn -[Nat.ltb].

Lemma append_empty_r (s : string) : (s ++ "")%string = s.
Proof. induction s as [| c s IH]; [reflexivity|]. cbn. rewrite IH. reflexivity. Qed.

Lemma append_assoc (s t u : string) :
  ((s ++ t) ++ u)%string = (s ++ (t ++ u))%string.
Proof. induction s as [| c s IH]; [reflexivity|]. cbn. rewrite IH. reflexivity. Qed.

(** *** Cancelling twice *)

(** Stopping a stopped session, or interrupting right after an
    interruption, changes nothing: the second cancellation finds no session
    to close and no source to stop. *)
Theorem cancellation_idempotent (a : App) (now now' : Q) (when when' : UpdaterRun) :
  step (step a ChannelError) ChannelError = step a ChannelError /\
  step (step a (Message now when interruptedEvent)) (Message now' when' interruptedEvent) =
    step a (Message now when interruptedEvent).
Proof.
  split.
  - rewrite (step_stop_refs (step a ChannelError) ChannelError) by (left; reflexivity).
    rewrite (step_stop_refs a ChannelError) by (left; reflexivity).
    cbn. rewrite !app_nil_r. reflexivity.
  - rewrite (step_interruptedEvent (step a (Message now when interruptedEvent))).
    rewrite (step_interruptedEvent a). cbn. rewrite app_nil_r. reflexivity.
Qed.

(** *** A start that fails *)

(** When the microphone is refused, the press of the button opens no
    connection and the session stays inactive; the audio contexts created
    on the way are kept, and nothing else changes. *)
Theorem start_without_microphone (a : App) :
  isActive (hooks a) = false ->
  let a' := step a (Click false) in
  connects (channel a') = connects (channel a) /\
  channel a' = channel a /\
  isActive (hooks a') = false /\
  transcription (hooks a') = transcription (hooks a) /\
  history (hooks a') = history (hooks a) /\
  audioContexts (refs a') = true /\
  liveSession (refs a') = liveSession (refs a) /\
  nextStartTime (refs a') = nextStartTime (refs a) /\
  sources (refs a') = sources (refs a) /\
  transcriptionRef (refs a') = transcriptionRef (refs a) /\
  output a' = output a /\
  completion a (Click false) = Normal tt.
Proof.
  intros H. cbv zeta. unfold step, completion, handler, startSession, connect.
  plumbing. rewrite H. cbn. repeat split.
Qed.

(** *** What a message with audio loses *)

(** The handler of a message that carries audio always ends by an
    exception inside the loop, so the rest of that message is never read:
    its transcript deltas are not accumulated, its [turnComplete] adds no
    entry and clears nothing, and its [interrupted] stops nothing. *)
Theorem audio_message_drops_the_rest (a : App) (now : Q) (when : UpdaterRun)
    (m : LiveServerMessage) (d : string) :
  firstAudio m = Some d ->
  let a' := step a (Message now when m) in
  completion a (Message now when m) <> Normal tt /\
  hooks a' = hooks a /\
  transcriptionRef (refs a') = transcriptionRef (refs a) /\
  sources (refs a') = sources (refs a) /\
  stopped (output a') = stopped (output a) /\
  liveSession (refs a') = liveSession (refs a) /\
  channel a' = channel a.
Proof.
  intros Hm. cbv zeta. unfold step, completion, handler.
  rewrite (onmessage_audio now when m d _ Hm), schedulePart_spec. cbn.
  destruct (audioContexts (refs a)); [| repeat split; discriminate].
  cbv zeta. destruct (decoded d); repeat split; discriminate.
Qed.

(** Parts that carry no audio (no [inlineData], or an empty [data]
    string) are skipped: the message is handled as if it had no parts. *)
Theorem parts_without_audio_are_skipped (a : App) (now : Q) (when : UpdaterRun)
    (m : LiveServerMessage) :
  firstAudio m = None ->
  step a (Message now when m) =
  step a (Message now when
    {| parts := None; inputTranscription := inputTranscription m;
       outputTranscription := outputTranscription m;
       turnComplete := turnComplete m; interrupted := interrupted m |}) /\
  output (step a (Message now when m)) =
    (if interrupted m
     then {| created := created (output a); started := started (output a);
             stopped := (stopped (output a) ++ sources (refs a))%list;
             ended := ended (output a) |}
     else output a).
Proof.
  intros Hm. split.
  - unfold step, handler. rewrite (onmessage_no_audio now when m _ Hm). reflexivity.
  - unfold step, handler. rewrite (onmessage_no_audio now when m _ Hm).
    unfold onmessage, setHistory, flushPlayback.
    destruct (inputTranscription m), (outputTranscription m), (turnComplete m),
      (interrupted m), when; plumbing; rewrite ?stopEach_spec; cbn;
      try reflexivity; destruct (output a); reflexivity.
Qed.

(** *** The transcript between two turns *)

Lemma step_accumulates (a : App) (e : Event) :
  keepsTranscript e = true ->
  user (transcriptionRef (refs (step a e))) =
    (user (transcriptionRef (refs a)) ++ heard RoleUser e)%string /\
  ai (transcriptionRef (refs (step a e))) =
    (ai (transcriptionRef (refs a)) ++ heard RoleAi e)%string.
Proof.
  destruct e as [g | n | n | n | now when m | | | n frame | id];
    cbn [keepsTranscript heard]; intros Hk; try discriminate;
    rewrite ?append_empty_r.
  - unfold step, handler, onopen. plumbing.
    destruct (n <? connects (channel a))%nat; split; reflexivity.
  - unfold step, handler, onresolved. plumbing.
    destruct ((n <? connects (channel a))%nat && negb (memb n (resolved (channel a))));
      split; reflexivity.
  - unfold step, handler, onrejected. plumbing.
    destruct ((n <? connects (channel a))%nat && negb (memb n (resolved (channel a))));
      split; reflexivity.
  - destruct (firstAudio m) as [d |] eqn:Hm.
    + destruct (step_audio_hooks a now when m d Hm) as (_ & _ & H). rewrite H.
      rewrite !append_empty_r. split; reflexivity.
    + apply negb_true_iff in Hk. unfold step, handler.
      rewrite (onmessage_no_audio now when m _ Hm).
      unfold onmessage, flushPlayback. rewrite Hk.
      destruct (inputTranscription m), (outputTranscription m), (interrupted m);
        plumbing; rewrite ?stopEach_spec; cbn; rewrite ?append_empty_r;
        split; reflexivity.
  - split; reflexivity.
  - unfold step, handler, onaudioprocess, sendWhenResolved. plumbing.
    destruct (memb n (processors (channel a))); [| split; reflexivity].
    plumbing. destruct (memb n (resolved (channel a))); split; reflexivity.
  - unfold step, handler, onended. plumbing.
    destruct (id <? created (output a))%nat; split; reflexivity.
Qed.

(** Between two completed turns the accumulators only grow, each by the
    deltas of its own role in the order they came; deltas of one role
    never touch the other accumulator, and neither do interruptions,
    audio, capture frames or channel events. *)
Theorem deltas_accumulate_per_role (es : list Event) (a : App) :
  Forall (fun e => keepsTranscript e = true) es ->
  user (transcriptionRef (refs (run es a))) =
    (user (transcriptionRef (refs a)) ++ joined (map (heard RoleUser) es))%string /\
  ai (transcriptionRef (refs (run es a))) =
    (ai (transcriptionRef (refs a)) ++ joined (map (heard RoleAi) es))%string.
Proof.
  revert a. induction es as [| e rest IH]; intros a H.
  - cbn. rewrite !append_empty_r. split; reflexivity.
  - inversion H as [| ? ? He Hrest]; subst.
    unfold run in *. cbn [fold_left map joined fold_right].
    destruct (IH (step a e) Hrest) as [Hu Ha].
    destruct (step_accumulates a e He) as [Su Sa].
    rewrite Hu, Ha, Su, Sa, !append_assoc. split; reflexivity.
Qed.

(** *** The display and the accumulators *)

Lemma displayFollows_cleared (a : App) :
  transcription (hooks a) = emptyTranscript ->
  transcriptionRef (refs a) = emptyTranscript ->
  displayFollows a.
Proof.
  intros H1 H2. unfold displayFollows. rewrite H1, H2. split; [reflexivity|].
  exists ""%string. reflexivity.
Qed.

Lemma displayFollows_same (a a' : App) :
  transcription (hooks a') = transcription (hooks a) ->
  transcriptionRef (refs a') = transcriptionRef (refs a) ->
  displayFollows a -> displayFollows a'.
Proof. unfold displayFollows. intros -> ->. exact (fun H => H). Qed.

Lemma step_displayFollows (a : App) (e : Event) :
  displayFollows a -> displayFollows (step a e).
Proof.
  intros Ha.
  destruct e as [g | n | n | n | now when m | | | n frame | id].
  - destruct (isActive (hooks a)) eqn:Hact.
    + apply displayFollows_cleared;
        rewrite (step_stop_refs a (Click g)) by (right; eauto); reflexivity.
    + apply (displayFollows_same a); [| | exact Ha];
        unfold step, handler, startSession, connect; plumbing; rewrite Hact;
        destruct g; reflexivity.
  - apply (displayFollows_same a); [| | exact Ha];
      unfold step, handler, onopen; plumbing;
      destruct (n <? connects (channel a))%nat; reflexivity.
  - apply (displayFollows_same a); [| | exact Ha];
      unfold step, handler, onresolved; plumbing;
      destruct ((n <? connects (channel a))%nat && negb (memb n (resolved (channel a))));
      reflexivity.
  - apply (displayFollows_same a); [| | exact Ha];
      unfold step, handler, onrejected; plumbing;
      destruct ((n <? connects (channel a))%nat && negb (memb n (resolved (channel a))));
      reflexivity.
  - destruct (firstAudio m) as [d |] eqn:Hm.
    + destruct (step_audio_hooks a now when m d Hm) as (Hh & _ & Hr).
      apply (displayFollows_same a); [rewrite Hh; reflexivity | exact Hr | exact Ha].
    + destruct Ha as [Hai (before & Hus)].
      unfold displayFollows, step, handler.
      rewrite (onmessage_no_audio now when m _ Hm).
      unfold onmessage, setHistory, flushPlayback.
      destruct (inputTranscription m) as [t |], (outputTranscription m) as [t' |],
        (turnComplete m), (interrupted m), when;
        plumbing; rewrite ?stopEach_spec; cbn;
        (split;
         [ first [reflexivity | exact Hai]
         | first
             [ exists ""%string; reflexivity
             | exists before; rewrite Hus, append_assoc; reflexivity
             | exists before; exact Hus
             | eexists; symmetry; apply append_empty_r ] ]).
  - apply displayFollows_cleared;
      rewrite (step_stop_refs a ChannelError) by (left; reflexivity); reflexivity.
  - apply (displayFollows_same a); [reflexivity | reflexivity | exact Ha].
  - apply (displayFollows_same a); [| | exact Ha];
      unfold step, handler, onaudioprocess, sendWhenResolved; plumbing;
      (destruct (memb n (processors (channel a))); [| reflexivity]);
      plumbing; destruct (memb n (resolved (channel a))); reflexivity.
  - apply (displayFollows_same a); [| | exact Ha];
      unfold step, handler, onended; plumbing;
      destruct (id <? created (output a))%nat; reflexivity.
Qed.

Lemma run_displayFollows (es : list Event) :
  displayFollows (run es initialApp).
Proof.
  assert (H : forall a, displayFollows a -> displayFollows (run es a)).
  { induction es as [| e rest IH]; intros a Ha; [exact Ha|].
    unfold run in *. cbn [fold_left]. apply IH, step_displayFollows, Ha. }
  apply H. apply displayFollows_cleared; reflexivity.
Qed.

(** After any run of events from the initial state, the assistant text
    on display is exactly the assistant accumulator, and the user text on
    display is the end of the user accumulator (an assistant delta blanks
    the user text on display, not the accumulator). *)
Theorem display_follows_accumulators (es : list Event) :
  let a := run es initialApp in
  ai (transcription (hooks a)) = ai (transcriptionRef (refs a)) /\
  exists before,
    user (transcriptionRef (refs a)) = (before ++ user (transcription (hooks a)))%string.
Proof. exact (run_displayFollows es). Qed.

(** While the assistant accumulator is non-empty the live line shows it,
    whatever the user accumulator holds. *)
Theorem live_line_shows_assistant (es : list Event) :
  truthy (ai (transcriptionRef (refs (run es initialApp)))) = true ->
  liveLine (transcription (hooks (run es initialApp))) =
    Some (ai (transcriptionRef (refs (run es initialApp)))).
Proof.
  intros Ht. destruct (run_displayFollows es) as [Hai _].
  unfold liveLine. rewrite Hai, Ht, orb_true_r. reflexivity.
Qed.

(** *** Capture frames and the session promise *)

Lemma step_audioprocess_channel (a : App) (n : nat) (frame : list Encoder.Number) :
  memb n (processors (channel a)) = true ->
  step a (AudioProcess n frame) =
  {| hooks := hooks a; refs := refs a; output := output a;
     channel :=
       {| connects := connects (channel a); resolved := resolved (channel a);
          closed := closed (channel a); processors := processors (channel a);
          waiting := if memb n (resolved (channel a)) then waiting (channel a)
                     else (waiting (channel a) ++ [(n, pcmBlob frame)])%list;
          sent := if memb n (resolved (channel a))
                  then (sent (channel a) ++ [(n, pcmBlob frame)])%list
                  else sent (channel a) |} |}.
Proof.
  intros Hp. unfold step, handler, onaudioprocess, sendWhenResolved. plumbing.
  rewrite Hp. plumbing. destruct (memb n (resolved (channel a))); reflexivity.
Qed.

Lemma run_frames (frames : list (list Encoder.Number)) (a : App) (n : nat) :
  memb n (processors (channel a)) = true ->
  let a' := run (map (AudioProcess n) frames) a in
  let blobs := map (fun f => (n, pcmBlob f)) frames in
  hooks a' = hooks a /\ refs a' = refs a /\ output a' = output a /\
  connects (channel a') = connects (channel a) /\
  resolved (channel a') = resolved (channel a) /\
  closed (channel a') = closed (channel a) /\
  processors (channel a') = processors (channel a) /\
  waiting (channel a') =
    (if memb n (resolved (channel a)) then waiting (channel a)
     else (waiting (channel a) ++ blobs)%list) /\
  sent (channel a') =
    (if memb n (resolved (channel a)) then (sent (channel a) ++ blobs)%list
     else sent (channel a)).
Proof.
  revert a. induction frames as [| f rest IH]; intros a Hp; cbv zeta.
  - cbn. destruct (memb n (resolved (channel a))); rewrite ?app_nil_r; repeat split.
  - unfold run in *. cbn [map fold_left].
    rewrite (step_audioprocess_channel a n f Hp).
    destruct (memb n (resolved (channel a))) eqn:Hr;
      match goal with |- context [fold_left step _ ?x] => set (a1 := x) end;
      (assert (Hp1 : memb n (processors (channel a1)) = true) by exact Hp);
      destruct (IH a1 Hp1) as (H1 & H2 & H3 & H4 & H5 & H6 & H7 & H8 & H9);
      cbv zeta in H8, H9; subst a1;
      cbn [channel resolved waiting sent] in H8, H9; rewrite Hr in H8, H9;
      rewrite H1, H2, H3, H4, H5, H6, H7, H8, H9; cbn;
      rewrite <- ?app_assoc; repeat split.
Qed.

(** Once the session promise has resolved, every capture frame causes
    exactly one call of [sendRealtimeInput], for the session of its
    processor, in the order of the frames, and changes nothing else. *)
Theorem one_send_per_frame_in_order (frames : list (list Encoder.Number))
    (a : App) (n : nat) :
  memb n (processors (channel a)) = true ->
  memb n (resolved (channel a)) = true ->
  let a' := run (map (AudioProcess n) frames) a in
  sent (channel a') =
    (sent (channel a) ++ map (fun f => (n, pcmBlob f)) frames)%list /\
  waiting (channel a') = waiting (channel a) /\
  hooks a' = hooks a /\ refs a' = refs a /\ output a' = output a.
Proof.
  intros Hp Hr. cbv zeta.
  destruct (run_frames frames a n Hp) as (H1 & H2 & H3 & _ & _ & _ & _ & H8 & H9).
  cbv zeta in H8, H9. rewrite Hr in H8, H9. repeat split; assumption.
Qed.

Lemma filter_filter_none {A : Type} (f : A -> bool) (l : list A) :
  filter f (filter (fun x => negb (f x)) l) = [].
Proof.
  induction l as [| x rest IH]; [reflexivity|].
  cbn. destruct (f x) eqn:E; cbn; [exact IH|]. rewrite E. exact IH.
Qed.

(** Frames captured before the session promise has settled are held,
    none is sent; when the promise resolves they are sent in the order
    they were captured, and when it rejects they are dropped. *)
Theorem frames_wait_for_the_session (frames : list (list Encoder.Number))
    (a : App) (n : nat) :
  memb n (processors (channel a)) = true ->
  (n < connects (channel a))%nat ->
  memb n (resolved (channel a)) = false ->
  filter (fun w => (fst w =? n)%nat) (waiting (channel a)) = [] ->
  let blobs := map (fun f => (n, pcmBlob f)) frames in
  let held := run (map (AudioProcess n) frames) a in
  sent (channel held) = sent (channel a) /\
  waiting (channel held) = (waiting (channel a) ++ blobs)%list /\
  sent (channel (step held (Resolved n))) = (sent (channel a) ++ blobs)%list /\
  liveSession (refs (step held (Resolved n))) = Some n /\
  sent (channel (step held (ConnectFailed n))) = sent (channel a) /\
  filter (fun w => (fst w =? n)%nat)
         (waiting (channel (step held (ConnectFailed n)))) = [].
Proof.
  intros Hp Hc Hr Hw. cbv zeta.
  destruct (run_frames frames a n Hp) as (H1 & H2 & H3 & H4 & H5 & H6 & H7 & H8 & H9).
  cbv zeta in H8, H9. rewrite Hr in H8, H9.
  set (held := run (map (AudioProcess n) frames) a) in *.
  apply Nat.ltb_lt in Hc.
  assert (Hf : filter (fun w : nat * Blob => (fst w =? n)%nat)
                 (map (fun f => (n, pcmBlob f)) frames) =
               map (fun f => (n, pcmBlob f)) frames).
  { clear. induction frames as [| f rest IH]; [reflexivity|].
    cbn. rewrite Nat.eqb_refl, IH. reflexivity. }
  split; [exact H9|]. split; [exact H8|].
  unfold step, handler, onresolved, onrejected. plumbing.
  rewrite H4, H5, Hc, Hr. cbn. rewrite H8, H9. repeat split.
  - rewrite filter_app, Hw, Hf. reflexivity.
  - apply filter_filter_none.
Qed.

(** *** A queue of chunks *)

Lemma run_chunks_tiled (es : list Event) :
  forall (a : App) (t0 : Q),
    audioContexts (refs a) = true ->
    t0 <= nextStartTime (refs a) ->
    Forall (chunkBefore t0) es ->
    exists new,
      started (output (run es a)) = (started (output a) ++ new)%list /\
      List.length new = List.length es /\
      tiled (nextStartTime (refs a)) new /\
      nextStartTime (refs (run es a)) ==
        nextStartTime (refs a) + totalOf (map chunkDuration es).
Proof.
  induction es as [| e rest IH]; intros a t0 Hctx Ht H.
  - exists []. cbn. rewrite app_nil_r. repeat split. ring.
  - inversion H as [| ? ? He Hrest]; subst.
    destruct e as [g | n | n | n | now when m | | | n frame | id];
      try (destruct He; fail).
    destruct He as (d & b & Hm & Hd & Hnow).
    destruct (step_audio_decoded a now when m d b Hctx Hm Hd) as [Hstep _].
    unfold run in *. cbn [fold_left map totalOf fold_right chunkDuration].
    rewrite Hm, Hd, Hstep.
    match goal with |- context [fold_left step rest ?x] => set (a1 := x) end.
    assert (Hmax : Qmax (nextStartTime (refs a)) now == nextStartTime (refs a)).
    { apply Q.max_l. apply (Qle_trans _ t0); assumption. }
    assert (Ht1 : t0 <= nextStartTime (refs a1)).
    { subst a1. cbn. pose proof (duration_nonneg b). rewrite Hmax. lra. }
    destruct (IH a1 t0 Hctx Ht1 Hrest) as (new & Hs & Hl & Htl & Hn).
    exists ({| node := created (output a); buffer := b;
               startAt := Qmax (nextStartTime (refs a)) now |} :: new).
    split; [rewrite Hs; subst a1; cbn; rewrite <- app_assoc; reflexivity|].
    split; [cbn; rewrite Hl; reflexivity|].
    split; [split; [exact Hmax | exact Htl]|].
    rewrite Hn. subst a1. cbn. fold (totalOf (map chunkDuration rest)).
    rewrite Hmax. ring.
Qed.

(** Chunks that each arrive no later than the current [nextStartTime]
    queue up behind one another: every new source starts at the instant
    the one before it ends, the first at the old [nextStartTime], and
    [nextStartTime] ends up advanced by the sum of their durations. *)
Theorem chunks_queue_back_to_back (es : list Event) (a : App) :
  audioContexts (refs a) = true ->
  Forall (chunkBefore (nextStartTime (refs a))) es ->
  exists new,
    started (output (run es a)) = (started (output a) ++ new)%list /\
    List.length new = List.length es /\
    tiled (nextStartTime (refs a)) new /\
    nextStartTime (refs (run es a)) ==
      nextStartTime (refs a) + totalOf (map chunkDuration es).
Proof.
  intros Hctx H.
  exact (run_chunks_tiled es a (nextStartTime (refs a)) Hctx (Qle_refl _) H).
Qed.

(** After an interruption the next chunk starts at the clock, not at the
    end of the audio that was queued before it. *)
Theorem chunk_after_interruption_starts_now (a : App) (t now : Q)
    (w w' : UpdaterRun) (m : LiveServerMessage) (d : string) (b : AudioBuffer) :
  audioContexts (refs a) = true ->
  firstAudio m = Some d ->
  decoded d = Some b ->
  0 <= now ->
  let a' := run [Message t w interruptedEvent; Message now w' m] a in
  exists s,
    started (output a') = (started (output a) ++ [s])%list /\
    buffer s = b /\
    startAt s == now /\
    nextStartTime (refs a') == now + duration b.
Proof.
  intros Hctx Hm Hd Hnow. cbv zeta. unfold run. cbn [fold_left].
  rewrite step_interruptedEvent.
  match goal with |- context [step ?x _] => set (a1 := x) end.
  destruct (step_audio_decoded a1 now w' m d b Hctx Hm Hd) as [H _].
  rewrite H. subst a1. cbn. eexists. split; [reflexivity|].
  split; [reflexivity|]. cbn.
  rewrite (Q.max_r 0 now Hnow). split; reflexivity.
Qed.

(** *** Stopping and restarting *)

Lemma step_resolved_spec (a : App) (n : nat) :
  (n < connects (channel a))%nat ->
  memb n (resolved (channel a)) = false ->
  step a (Resolved n) =
  {| hooks := hooks a;
     refs := set_liveSession (Some n) (refs a);
     output := output a;
     channel :=
       {| connects := connects (channel a);
          resolved := (resolved (channel a) ++ [n])%list;
          closed := closed (channel a);
          processors := processors (channel a);
          waiting := filter (fun w => negb (fst w =? n)%nat) (waiting (channel a));
          sent := (sent (channel a) ++
                   filter (fun w => (fst w =? n)%nat) (waiting (channel a)))%list |} |}.
Proof.
  intros Hc Hr. apply Nat.ltb_lt in Hc.
  unfold step, handler, onresolved. plumbing. rewrite Hc, Hr. reflexivity.
Qed.

(** A stop between [onopen] and the resolution of the session promise
    closes nothing, because [liveSession] is still empty; the promise then
    resolves and stores a session that stays open while the component is
    inactive. *)
Theorem stop_before_resolve_leaves_session_open (a : App) (n : nat) (g : bool) :
  isActive (hooks a) = true ->
  liveSession (refs a) = None ->
  (n < connects (channel a))%nat ->
  memb n (resolved (channel a)) = false ->
  let a' := run [Click g; Resolved n] a in
  isActive (hooks a') = false /\
  closed (channel a') = closed (channel a) /\
  liveSession (refs a') = Some n /\
  resolved (channel a') = (resolved (channel a) ++ [n])%list.
Proof.
  intros Hact Hlive Hc Hr. cbv zeta. unfold run. cbn [fold_left].
  assert (Hstop := step_stop_refs a (Click g) (or_intror (ex_intro _ g (conj eq_refl Hact)))).
  set (a1 := step a (Click g)) in *.
  assert (Hc1 : (n < connects (channel a1))%nat) by (rewrite Hstop; exact Hc).
  assert (Hr1 : memb n (resolved (channel a1)) = false) by (rewrite Hstop; exact Hr).
  rewrite (step_resolved_spec a1 n Hc1 Hr1). rewrite Hstop. cbn.
  rewrite Hlive, app_nil_r. repeat split.
Qed.

(** When the remote side closes the channel only [isActive] changes; a
    press of the button then opens a new connection, and the new session
    inherits [nextStartTime], the set of sources, [liveSession] and the
    transcript of the old one. *)
Theorem restart_after_remote_close (a : App) :
  let a1 := step a ChannelClosed in
  let a2 := step a1 (Click true) in
  isActive (hooks a1) = false /\
  refs a1 = refs a /\ output a1 = output a /\ channel a1 = channel a /\
  transcription (hooks a1) = transcription (hooks a) /\
  history (hooks a1) = history (hooks a) /\
  connects (channel a2) = S (connects (channel a)) /\
  closed (channel a2) = closed (channel a) /\
  liveSession (refs a2) = liveSession (refs a) /\
  nextStartTime (refs a2) = nextStartTime (refs a) /\
  sources (refs a2) = sources (refs a) /\
  transcriptionRef (refs a2) = transcriptionRef (refs a) /\
  transcription (hooks a2) = transcription (hooks a) /\
  output a2 = output a.
Proof.
  cbv zeta.
  assert (H1 : step a ChannelClosed =
    {| hooks := {| isActive := false; transcription := transcription (hooks a);
                   history := history (hooks a) |};
       refs := refs a; output := output a; channel := channel a |}) by reflexivity.
  rewrite H1. rewrite step_click_inactive by reflexivity. cbn. repeat split.
Qed.

Lemma audio_message_parts (a : App) (now : Q) (when : UpdaterRun)
    (m : LiveServerMessage) (d : string) :
  firstAudio m = Some d ->
  hooks (step a (Message now when m)) = hooks a /\
  channel (step a (Message now when m)) = channel a.
Proof.
  intros Hm. unfold step, handler.
  rewrite (onmessage_audio now when m d _ Hm), schedulePart_spec. cbn.
  destruct (audioContexts (refs a)); [| repeat split].
  cbv zeta. destruct (decoded d); repeat split.
Qed.

Lemma step_processors (a : App) (e : Event) :
  exists added, processors (channel (step a e)) = (processors (channel a) ++ added)%list.
Proof.
  destruct e as [g | n | n | n | now when m | | | n frame | id].
  - exists []. rewrite app_nil_r. destruct (isActive (hooks a)) eqn:Hact.
    + rewrite (step_stop_refs a (Click g)) by (right; eauto). reflexivity.
    + unfold step, handler, startSession, connect. plumbing. rewrite Hact.
      destruct g; reflexivity.
  - unfold step, handler, onopen. plumbing.
    destruct (n <? connects (channel a))%nat;
      [exists [n] | exists []; rewrite app_nil_r]; reflexivity.
  - exists []. rewrite app_nil_r. unfold step, handler, onresolved. plumbing.
    destruct ((n <? connects (channel a))%nat && negb (memb n (resolved (channel a))));
      reflexivity.
  - exists []. rewrite app_nil_r. unfold step, handler, onrejected. plumbing.
    destruct ((n <? connects (channel a))%nat && negb (memb n (resolved (channel a))));
      reflexivity.
  - exists []. rewrite app_nil_r. destruct (firstAudio m) as [d |] eqn:Hm.
    + destruct (audio_message_parts a now when m d Hm) as [_ H]. rewrite H. reflexivity.
    + unfold step, handler. rewrite (onmessage_no_audio now when m _ Hm).
      unfold onmessage, setHistory, flushPlayback.
      destruct (inputTranscription m), (outputTranscription m), (turnComplete m),
        (interrupted m), when; plumbing; rewrite ?stopEach_spec; reflexivity.
  - exists []. rewrite app_nil_r.
    rewrite (step_stop_refs a ChannelError) by (left; reflexivity). reflexivity.
  - exists []. rewrite app_nil_r. reflexivity.
  - exists []. rewrite app_nil_r.
    unfold step, handler, onaudioprocess, sendWhenResolved. plumbing.
    destruct (memb n (processors (channel a))); [| reflexivity].
    plumbing. destruct (memb n (resolved (channel a))); reflexivity.
  - exists []. rewrite app_nil_r. unfold step, handler, onended. plumbing.
    destruct (id <? created (output a))%nat; reflexivity.
Qed.

(** No event ever disconnects a script processor: along any run the
    processors connected at the start are still connected at the end, in
    the same order, with those of later sessions after them. *)
Theorem processors_are_never_disconnected (es : list Event) (a : App) :
  exists added,
    processors (channel (run es a)) = (processors (channel a) ++ added)%list.
Proof.
  revert a. induction es as [| e rest IH]; intros a.
  - exists []. rewrite app_nil_r. reflexivity.
  - unfold run in *. cbn [fold_left].
    destruct (IH (step a e)) as (more & Hmore).
    destruct (step_processors a e) as (added & Hadded).
    exists (added ++ more)%list. rewrite Hmore, Hadded, app_assoc. reflexivity.
Qed.

(** *** The history *)

(** After any run of events from the initial state, whenever React runs
    the updaters, [history] holds at most two entries. *)
Theorem history_never_exceeds_two (es : list Event) :
  (List.length (history (hooks (run es initialApp))) <= 2)%nat.
Proof. exact (run_history_bounded es). Qed.

Lemma sliceLast2_app_two {A : Type} (l : list A) (x y : A) :
  sliceLast2 (l ++ [x; y])%list = [x; y].
Proof.
  unfold sliceLast2. rewrite length_app. cbn [List.length].
  replace (List.length l + 2 - 2)%nat with (List.length l) by lia.
  rewrite skipn_app, skipn_all, Nat.sub_diag. reflexivity.
Qed.

(** A completed turn whose updater runs at the call: when both
    accumulators are non-empty the history becomes the user entry followed
    by the assistant entry, whatever it held; when only one is non-empty
    and the history is full, the older entry is dropped and the new one
    goes last. *)
Theorem completed_turn_at_call_rewrites_history (a : App) (now : Q) :
  let t := transcriptionRef (refs a) in
  let a' := step a (Message now AtCall turnCompleteEvent) in
  (truthy (user t) = true -> truthy (ai t) = true ->
   history (hooks a') =
     [{| text := user t; role := RoleUser |}; {| text := ai t; role := RoleAi |}]) /\
  (forall x y, history (hooks a) = [x; y] ->
     truthy (user t) = false -> truthy (ai t) = true ->
     history (hooks a') = [y; {| text := ai t; role := RoleAi |}]) /\
  (forall x y, history (hooks a) = [x; y] ->
     truthy (user t) = true -> truthy (ai t) = false ->
     history (hooks a') = [y; {| text := user t; role := RoleUser |}]).
Proof.
  cbv zeta. destruct (turnComplete_at_call a now) as [H _]. cbv zeta in H.
  rewrite H. unfold historyUpdater.
  split; [| split].
  - intros Hu Ha. rewrite Hu, Ha. cbn [app]. apply sliceLast2_app_two.
  - intros x y Hh Hu Ha. rewrite Hh, Hu, Ha. reflexivity.
  - intros x y Hh Hu Ha. rewrite Hh, Hu, Ha. reflexivity.
Qed.

(** A turn that completes with both accumulators empty adds no entry,
    whenever the updater runs: a history of at most two entries is left as
    it is. *)
Theorem empty_turn_adds_no_entry (a : App) (now : Q) (when : UpdaterRun) :
  transcriptionRef (refs a) = emptyTranscript ->
  (List.length (history (hooks a)) <= 2)%nat ->
  history (hooks (step a (Message now when turnCompleteEvent))) = history (hooks a).
Proof.
  intros Ht Hl. destruct when.
  - destruct (turnComplete_at_render a now turnCompleteEvent eq_refl eq_refl) as [H _].
    cbv zeta in H. rewrite H. apply sliceLast2_short, Hl.
  - destruct (turnComplete_at_call a now) as [H _]. cbv zeta in H.
    rewrite H. unfold historyUpdater. rewrite Ht. cbn. rewrite app_nil_r.
    apply sliceLast2_short, Hl.
Qed.

(** *** Playback is never cancelled *)

Lemma audio_message_drops_rest_output (a : App) (now : Q) (when : UpdaterRun)
    (m : LiveServerMessage) (d : string) :
  firstAudio m = Some d ->
  stopped (output (step a (Message now when m))) = stopped (output a).
Proof.
  intros Hm. unfold step, handler.
  rewrite (onmessage_audio now when m d _ Hm), schedulePart_spec. cbn.
  destruct (audioContexts (refs a)); [| reflexivity].
  cbv zeta. destruct (decoded d); reflexivity.
Qed.

Lemma step_stopped_of_empty (a : App) (e : Event) :
  sources (refs a) = [] -> stopped (output (step a e)) = stopped (output a).
Proof.
  intros Hs.
  destruct e as [g | n | n | n | now when m | | | n frame | id].
  - destruct (isActive (hooks a)) eqn:Hact.
    + rewrite (step_stop_refs a (Click g)) by (right; eauto). cbn.
      rewrite Hs, app_nil_r. reflexivity.
    + unfold step, handler, startSession, connect. plumbing. rewrite Hact.
      destruct g; reflexivity.
  - unfold step, handler, onopen. plumbing.
    destruct (n <? connects (channel a))%nat; reflexivity.
  - unfold step, handler, onresolved. plumbing.
    destruct ((n <? connects (channel a))%nat && negb (memb n (resolved (channel a))));
      reflexivity.
  - unfold step, handler, onrejected. plumbing.
    destruct ((n <? connects (channel a))%nat && negb (memb n (resolved (channel a))));
      reflexivity.
  - destruct (firstAudio m) as [d |] eqn:Hm.
    + apply (audio_message_drops_rest_output a now when m d Hm).
    + unfold step, handler. rewrite (onmessage_no_audio now when m _ Hm).
      unfold onmessage, setHistory, flushPlayback.
      destruct (inputTranscription m), (outputTranscription m), (turnComplete m),
        (interrupted m), when; plumbing; rewrite ?stopEach_spec; cbn;
        rewrite ?Hs, ?app_nil_r; reflexivity.
  - rewrite (step_stop_refs a ChannelError) by (left; reflexivity). cbn.
    rewrite Hs, app_nil_r. reflexivity.
  - reflexivity.
  - unfold step, handler, onaudioprocess, sendWhenResolved. plumbing.
    destruct (memb n (processors (channel a))); [| reflexivity].
    plumbing. destruct (memb n (resolved (channel a))); reflexivity.
  - unfold step, handler, onended. plumbing.
    destruct (id <? created (output a))%nat; reflexivity.
Qed.

(** From the initial state, whatever the events, the set of active
    sources is empty and [stop()] has been called on no source: a stop or
    an interruption never silences audio that was scheduled. *)
Theorem playback_is_never_cancelled (es : list Event) :
  sources (refs (run es initialApp)) = [] /\
  stopped (output (run es initialApp)) = [].
Proof.
  assert (H : forall a, sources (refs a) = [] -> stopped (output a) = [] ->
              sources (refs (run es a)) = [] /\ stopped (output (run es a)) = []).
  { induction es as [| e rest IH]; intros a Hs Hp; [split; assumption|].
    unfold run in *. cbn [fold_left]. apply IH.
    - apply step_sources_empty, Hs.
    - rewrite (step_stopped_of_empty a e Hs). exact Hp. }
  apply H; reflexivity.
Qed.

(** *** One source per message *)

(** A message starts at most one source, and only for its first audio
    part: the exception of line 119 ends the loop. *)
Lemma message_starts_at_most_one_source (a : App) (now : Q) (when : UpdaterRun)
    (m : LiveServerMessage) :
  started (output (step a (Message now when m))) = started (output a) \/
  exists d b,
    firstAudio m = Some d /\ decoded d = Some b /\
    started (output (step a (Message now when m))) =
      (started (output a) ++
       [{| node := created (output a); buffer := b;
           startAt := Qmax (nextStartTime (refs a)) now |}])%list.
Proof.
  destruct (firstAudio m) as [d |] eqn:Hm.
  - destruct (audioContexts (refs a)) eqn:Hctx.
    + destruct (decoded d) as [b |] eqn:Hd.
      * right. exists d, b. split; [reflexivity|]. split; [exact Hd|].
        destruct (step_audio_decoded a now when m d b Hctx Hm Hd) as [H _].
        rewrite H. reflexivity.
      * left. destruct (step_audio_failed a now when m d Hctx Hm Hd) as [H _].
        rewrite H. reflexivity.
    + left. unfold step, handler.
      rewrite (onmessage_audio now when m d _ Hm), schedulePart_spec. cbn.
      rewrite Hctx. reflexivity.
  - left. unfold step, handler. rewrite (onmessage_no_audio now when m _ Hm).
    unfold onmessage, setHistory, flushPlayback.
    destruct (inputTranscription m), (outputTranscription m), (turnComplete m),
      (interrupted m), when; plumbing; rewrite ?stopEach_spec; reflexivity.
Qed.

End SessionMore.

(** * The further properties, run *)

Section ScenariosMore.

Existing Instance scenarioService.

Local Open Scope Q_scope.

Lemma quarter_below_half :
  (Encoder.encodeSample (Encoder.Fin (1 # 4)) <=
   Encoder.encodeSample (Encoder.Fin (1 # 2)))%Z /\
  Encoder.encodeSample (Encoder.Fin (1 # 4)) = 7372%Z /\
  Encoder.encodeSample (Encoder.Fin (1 # 2)) = 14745%Z.
Proof.
  split; [| split; vm_compute; reflexivity].
  apply (encodeSample_monotone (1 # 4) (1 # 2)). vm_compute. discriminate.
Defined.

Lemma half_scale_is_linear :
  Encoder.encodeSample (Encoder.Fin (1 # 2)) =
    Encoder.truncate ((1 # 2) * Encoder.headroom * Encoder.fullScale) /\
  Encoder.truncate ((1 # 2) * Encoder.headroom * Encoder.fullScale) = 14745%Z.
Proof.
  split; [| vm_compute; reflexivity].
  apply (encodeSample_linear_range (1 # 2)); vm_compute; discriminate.
Defined.

Lemma twice_full_scale_saturates :
  Encoder.encodeSample (Encoder.Fin 2) = 32767%Z /\
  Encoder.encodeSample (Encoder.Fin (-2 # 1)) = (-32767)%Z.
Proof.
  destruct encodeSample_saturates as (Hhi & Hlo & _).
  split; [apply Hhi | apply Hlo]; vm_compute; discriminate.
Defined.

Lemma silence_and_nan_share_a_payload :
  let frame := [Encoder.Fin 1; Encoder.NaN] in
  let other := [Encoder.Fin 1; Encoder.Fin 0] in
  Encoder.frameBytes (Encoder.encodeFrame frame) = [50; 115; 0; 0]%Z /\
  Encoder.encodeFrame frame = Encoder.encodeFrame other.
Proof.
  cbv zeta. split; [vm_compute; reflexivity|].
  destruct (frame_payload_faithful [Encoder.Fin 1; Encoder.NaN]
              [Encoder.Fin 1; Encoder.Fin 0]) as (_ & _ & H).
  apply H. vm_compute. reflexivity.
Defined.

Lemma refused_microphone_at_first_press :
  let a' := step initialApp (Click false) in
  connects (channel a') = 0%nat /\ isActive (hooks a') = false /\
  audioContexts (refs a') = true.
Proof.
  cbv zeta.
  destruct (start_without_microphone initialApp eq_refl)
    as (Hc & _ & Ha & _ & _ & Hctx & _).
  cbv zeta in Hc, Ha, Hctx. rewrite Hc. split; [reflexivity|]. split; assumption.
Defined.


Lemma loaded_message_is_cut_short :
  let a := step activeApp (Message 9 AtRender (assistantDelta "Yo")) in
  let a' := step a (Message 10 AtCall loadedMessage) in
  transcriptionRef (refs a') = {| user := ""; ai := "Yo" |} /\
  history (hooks a') = [] /\
  transcription (hooks a') = {| user := ""; ai := "Yo" |} /\
  stopped (output a') = [].
Proof.
  cbv zeta.
  set (a := step activeApp (Message 9 AtRender (assistantDelta "Yo"))).
  destruct (audio_message_drops_the_rest a 10 AtCall loadedMessage "chunk-300ms"
              eq_refl) as (_ & Hh & Ht & _ & Hs & _).
  cbv zeta in Hh, Ht, Hs. rewrite Hh, Ht, Hs. repeat split.
Defined.

Lemma text_only_parts_are_skipped :
  step activeApp (Message 10 AtRender textOnlyMessage) =
    step activeApp (Message 10 AtRender (userDelta "Hi")) /\
  output (step activeApp (Message 10 AtRender textOnlyMessage)) = output activeApp.
Proof.
  destruct (parts_without_audio_are_skipped activeApp 10 AtRender textOnlyMessage
              eq_refl) as [H1 H2].
  split; [exact H1 | exact H2].
Defined.

Lemma interleaved_deltas :
  let es := [Message 1 AtRender (userDelta "Hi");
             Message 2 AtRender (assistantDelta "Yo");
             Message 3 AtRender interruptedEvent;
             Message 4 AtRender (audioEvent "chunk-300ms");
             Message 5 AtCall (userDelta " there")] in
  user (transcriptionRef (refs (run es activeApp))) = "Hi there"%string /\
  ai (transcriptionRef (refs (run es activeApp))) = "Yo"%string /\
  user (transcription (hooks (run es activeApp))) = " there"%string.
Proof.
  cbv zeta.
  match goal with |- context [run ?l activeApp] => set (es := l) end.
  assert (Hk : Forall (fun e => keepsTranscript e = true) es)
    by (repeat constructor).
  destruct (deltas_accumulate_per_role es activeApp Hk) as [Hu Ha].
  rewrite Hu, Ha. repeat split; vm_compute; reflexivity.
Defined.

Lemma assistant_line_on_display :
  let es := [Click true; Opened 0%nat; Resolved 0%nat;
             Message 1 AtRender (userDelta "Hi");
             Message 2 AtRender (assistantDelta "Yo")] in
  liveLine (transcription (hooks (run es initialApp))) = Some "Yo"%string.
Proof.
  cbv zeta.
  match goal with |- context [run ?l initialApp] => set (es := l) end.
  assert (Ht : truthy (ai (transcriptionRef (refs (run es initialApp)))) = true)
    by (vm_compute; reflexivity).
  rewrite (live_line_shows_assistant es Ht). vm_compute. reflexivity.
Defined.

Lemma three_frames_three_sends :
  let frames := [[Encoder.Fin 1]; []; [Encoder.Fin (1 # 2); Encoder.NaN]] in
  sent (channel (run (map (AudioProcess 0) frames) activeApp)) =
    map (fun f => (0%nat, pcmBlob f)) frames.
Proof.
  cbv zeta.
  assert (Hp : memb 0 (processors (channel activeApp)) = true) by reflexivity.
  assert (Hr : memb 0 (resolved (channel activeApp)) = true) by reflexivity.
  match goal with |- context [map (AudioProcess 0) ?l] => set (frames := l) end.
  destruct (one_send_per_frame_in_order frames activeApp 0 Hp Hr) as (H & _).
  cbv zeta in H. rewrite H. reflexivity.
Defined.

Lemma frames_held_until_resolved :
  let frames := [[Encoder.Fin 1]; [Encoder.Fin (1 # 2)]] in
  let held := run (map (AudioProcess 0) frames) openedApp in
  sent (channel held) = [] /\
  sent (channel (step held (Resolved 0))) = map (fun f => (0%nat, pcmBlob f)) frames /\
  sent (channel (step held (ConnectFailed 0))) = [].
Proof.
  cbv zeta.
  assert (Hp : memb 0 (processors (channel openedApp)) = true) by reflexivity.
  assert (Hc : (0 < connects (channel openedApp))%nat) by (vm_compute; lia).
  assert (Hr : memb 0 (resolved (channel openedApp)) = false) by reflexivity.
  assert (Hw : filter (fun w : nat * Blob => (fst w =? 0)%nat)
                 (waiting (channel openedApp)) = []) by reflexivity.
  match goal with |- context [map (AudioProcess 0) ?l] => set (frames := l) end.
  destruct (frames_wait_for_the_session frames openedApp 0 Hp Hc Hr Hw)
    as (H1 & _ & H3 & _ & H5 & _).
  cbv zeta in H1, H3, H5. rewrite H1, H3, H5. repeat split.
Defined.

Lemma three_chunks_queue :
  let a1 := step activeApp (Message 10 AtRender (audioEvent "chunk-500ms")) in
  let es := [Message 10 AtRender (audioEvent "chunk-300ms");
             Message (41 # 4) AtRender (audioEvent "chunk-500ms")] in
  nextStartTime (refs a1) == 21 # 2 /\
  nextStartTime (refs (run es a1)) == 113 # 10 /\
  exists new,
    started (output (run es a1)) = (started (output a1) ++ new)%list /\
    List.length new = 2%nat /\
    tiled (nextStartTime (refs a1)) new.
Proof.
  cbv zeta.
  set (a1 := step activeApp (Message 10 AtRender (audioEvent "chunk-500ms"))).
  match goal with |- context [run ?l a1] => set (es := l) end.
  assert (Hctx : audioContexts (refs a1) = true) by reflexivity.
  assert (Hd1 : decoded "chunk-500ms" = Some halfSecond) by (vm_compute; reflexivity).
  assert (Hd2 : decoded "chunk-300ms" = Some threeTenths) by (vm_compute; reflexivity).
  assert (Hes : Forall (chunkBefore (nextStartTime (refs a1))) es).
  { constructor.
    - exists "chunk-300ms"%string, threeTenths.
      split; [reflexivity|]. split; [exact Hd2 | vm_compute; discriminate].
    - constructor; [| constructor].
      exists "chunk-500ms"%string, halfSecond.
      split; [reflexivity|]. split; [exact Hd1 | vm_compute; discriminate]. }
  destruct (chunks_queue_back_to_back es a1 Hctx Hes) as (new & Hs & Hl & Ht & Hn).
  split; [vm_compute; reflexivity|].
  split; [rewrite Hn; vm_compute; reflexivity|].
  exists new. split; [exact Hs|]. split; [exact Hl | exact Ht].
Defined.

Lemma chunk_after_interruption_at_clock :
  let a1 := step activeApp (Message 10 AtRender (audioEvent "chunk-500ms")) in
  let a' := run [Message (51 # 5) AtRender interruptedEvent;
                 Message (103 # 10) AtRender (audioEvent "chunk-300ms")] a1 in
  nextStartTime (refs a1) == 21 # 2 /\
  exists s,
    started (output a') = (started (output a1) ++ [s])%list /\
    startAt s == 103 # 10 /\
    nextStartTime (refs a') == 106 # 10.
Proof.
  cbv zeta.
  set (a1 := step activeApp (Message 10 AtRender (audioEvent "chunk-500ms"))).
  assert (Hctx : audioContexts (refs a1) = true) by reflexivity.
  assert (Hd : decoded "chunk-300ms" = Some threeTenths) by (vm_compute; reflexivity).
  assert (Hnow : 0 <= 103 # 10) by (vm_compute; discriminate).
  destruct (chunk_after_interruption_starts_now a1 (51 # 5) (103 # 10) AtRender
              AtRender (audioEvent "chunk-300ms") "chunk-300ms" threeTenths
              Hctx eq_refl Hd Hnow) as (s & Hs & Hb & Ht & Hn).
  cbv zeta in Hs, Hn.
  split; [vm_compute; reflexivity|].
  exists s. split; [exact Hs|]. split; [exact Ht|].
  rewrite Hn. vm_compute. reflexivity.
Defined.

Lemma stop_right_after_open :
  let a' := run [Click true; Resolved 0%nat] openedApp in
  isActive (hooks openedApp) = true /\
  isActive (hooks a') = false /\
  liveSession (refs a') = Some 0%nat /\
  closed (channel a') = [].
Proof.
  cbv zeta.
  assert (Hact : isActive (hooks openedApp) = true) by reflexivity.
  assert (Hlive : liveSession (refs openedApp) = None) by reflexivity.
  assert (Hc : (0 < connects (channel openedApp))%nat) by (vm_compute; lia).
  assert (Hr : memb 0 (resolved (channel openedApp)) = false) by reflexivity.
  destruct (stop_before_resolve_leaves_session_open openedApp 0 true Hact Hlive Hc Hr)
    as (H1 & H2 & H3 & _).
  cbv zeta in H1, H2, H3. rewrite H1, H2, H3. repeat split.
Defined.

Lemma hi_yo_turn_at_call :
  let a := run [Message 1 AtRender (userDelta "Hi");
                Message 2 AtRender (assistantDelta "Yo")] activeApp in
  history (hooks (step a (Message 3 AtCall turnCompleteEvent))) =
    [{| text := "Hi"; role := RoleUser |}; {| text := "Yo"; role := RoleAi |}].
Proof.
  cbv zeta.
  match goal with |- context [step ?x _] => set (a := x) end.
  destruct (completed_turn_at_call_rewrites_history a 3) as (H & _).
  cbv zeta in H. rewrite H; reflexivity.
Defined.

Lemma empty_turn_on_a_fresh_session :
  history (hooks (step activeApp (Message 1 AtRender turnCompleteEvent))) = [] /\
  history (hooks (step activeApp (Message 1 AtCall turnCompleteEvent))) = [].
Proof.
  assert (Ht : transcriptionRef (refs activeApp) = emptyTranscript) by reflexivity.
  assert (Hl : (List.length (history (hooks activeApp)) <= 2)%nat)
    by (vm_compute; lia).
  split.
  - exact (eq_trans (empty_turn_adds_no_entry activeApp 1 AtRender Ht Hl) eq_refl).
  - exact (eq_trans (empty_turn_adds_no_entry activeApp 1 AtCall Ht Hl) eq_refl).
Defined.

(** C1, at one message whose parts are [audio(0.5s), audio(0.3s)], with
    [nextStartTime] 0 and the clock at 10. The first chunk is started at 10
    and [nextStartTime] becomes 10.5; line 119 then throws, the loop ends,
    and the second chunk is never decoded or started: nothing plays over
    [10.5, 10.8]. *)
Theorem second_chunk_of_a_message_is_not_scheduled :
  let a' := step activeApp (Message 10 AtRender twoChunkMessage) in
  nextStartTime (refs activeApp) = 0 /\
  completion activeApp (Message 10 AtRender twoChunkMessage) = Throw TypeError /\
  started (output a') = [{| node := 0; buffer := halfSecond; startAt := 10 |}] /\
  created (output a') = 1%nat /\
  nextStartTime (refs a') == 21 # 2 /\
  ~ In threeTenths (map buffer (started (output a'))).
Proof.
  cbv zeta. repeat split; try (vm_compute; reflexivity).
  vm_compute. intros [H | []]. discriminate H.
Qed.

End ScenariosMore.
